(** * towr / xpp: contact schedule and end-effector containers

    A shallow embedding of

    - [ContactSchedule] (towr/variables/contact_schedule.cc): the phase
      durations of one end-effector as an optimization variable set, with
      [GetValues], [SetVariables], [GetBounds] and [GetJacobianOfPos];
    - [EndeffectorsBool] (xpp/endeffectors.h): [Invert] and [GetTrueCount].

    The C++ methods are translated into a state-and-error monad over the
    fields of the object.  [double] is kept abstract (class [Scalar]): its
    operations are uninterpreted, and a theorem that needs a fact about
    them lists it as a hypothesis; the facts used hold for IEEE doubles.
    The class is instantiated with binary64 floats, where rounding shows,
    and with exact integers and rationals. *)

From Stdlib Require Import PrimFloat.
From Stdlib Require Import ZArith Lia Bool QArith Qcanon.
From stdpp Require Import base option list gmap sorting strings.

(** ** Machine integers *)

(** [int] is 32 bits wide and [size_t] 64 bits, as on the LP64 targets the
    library is built for.  Values are kept in [Z]; the conversions that the
    C++ code performs implicitly are written out here. *)
Module CInt.

Definition INT_MAX : Z := 2147483647.

(** conversion to [size_t]: reduction modulo 2^64 *)
Definition to_size_t (z : Z) : Z := (z mod 2 ^ 64)%Z.

(** conversion to [int]: reduction modulo 2^32 into the signed range *)
Definition to_int (z : Z) : Z :=
  let w := (z mod 2 ^ 32)%Z in
  if (w <? 2 ^ 31)%Z then w else (w - 2 ^ 32)%Z.

End CInt.

(** ** Outcomes of a call *)

(** The ways in which the C++ code can end without returning. *)
Inductive failure : Type :=
| OutOfRange           (* std::out_of_range thrown by at() *)
| LengthError          (* std::length_error thrown by resize() *)
| AssertionFailed      (* assert(...) evaluated to false: abort() *)
| EigenPrecondition    (* a precondition of an Eigen operation is violated
                          (negative size, index or size mismatch) *)
| Undefined.           (* undefined behaviour of the standard library:
                          back() of an empty vector *)

Inductive result (A : Type) : Type :=
| Ok (a : A)
| Fail (e : failure).
Arguments Ok {A} a.
Arguments Fail {A} e.

Definition result_map {A B} (f : A -> B) (r : result A) : result B :=
  match r with
  | Ok a => Ok (f a)
  | Fail e => Fail e
  end.

#[global] Instance result_ret : MRet result := fun A a => Ok a.

#[global] Instance result_bind : MBind result := fun A B k r =>
  match r with
  | Ok a => k a
  | Fail e => Fail e
  end.

(** [for (auto e : l) acc = body(e, acc);] on local values *)
Fixpoint for_each_local {A B} (l : list B) (body : B -> A -> result A) (acc : A)
  : result A :=
  match l with
  | [] => Ok acc
  | e :: l' => acc' ← body e acc; for_each_local l' body acc'
  end.

(** ** Scalars *)

(** The operations of [double] that the code uses.  [of_Z] stands for the
    numeric literals ([0.0], [1.0], [-1.0], [-1]). *)
Class Scalar (D : Type) := {
  of_Z : Z -> D;
  sadd : D -> D -> D;
  ssub : D -> D -> D;
  smul : D -> D -> D;
  sneg : D -> D;
  sabs : D -> D;
  sltb : D -> D -> bool;
  sleb : D -> D -> bool
}.

(** [a > b] *)
Definition sgtb {D} `{Scalar D} (a b : D) : bool := sltb b a.

(** Exact integers as scalars: durations counted in ticks. *)
#[global] Instance Z_Scalar : Scalar Z := {|
  of_Z := fun z => z;
  sadd := Z.add;
  ssub := Z.sub;
  smul := Z.mul;
  sneg := Z.opp;
  sabs := Z.abs;
  sltb := Z.ltb;
  sleb := Z.leb
|}.

(** Exact rationals as scalars: durations in decimal fractions of a second. *)
#[global] Instance Qc_Scalar : Scalar Qc := {|
  of_Z := fun z => Q2Qc (inject_Z z);
  sadd := Qcplus;
  ssub := Qcminus;
  smul := Qcmult;
  sneg := Qcopp;
  sabs := fun a => match (0 ?= a)%Qc with Gt => Qcopp a | _ => a end;
  sltb := fun a b => match (a ?= b)%Qc with Lt => true | _ => false end;
  sleb := fun a b => match (a ?= b)%Qc with Gt => false | _ => true end
|}.

(** [double] itself: binary64 with the rounding of the machine.  [of_Z]
    builds the integer by doubling, which is exact for the literals of the
    code (0, 1 and -1). *)
Fixpoint float_of_pos (p : positive) : PrimFloat.float :=
  match p with
  | xH => PrimFloat.one
  | xO q => PrimFloat.mul PrimFloat.two (float_of_pos q)
  | xI q => PrimFloat.add (PrimFloat.mul PrimFloat.two (float_of_pos q)) PrimFloat.one
  end.

#[global] Instance double_Scalar : Scalar PrimFloat.float := {|
  of_Z := fun z => match z with
                   | Z0 => PrimFloat.zero
                   | Zpos p => float_of_pos p
                   | Zneg p => PrimFloat.opp (float_of_pos p)
                   end;
  sadd := PrimFloat.add;
  ssub := PrimFloat.sub;
  smul := PrimFloat.mul;
  sneg := PrimFloat.opp;
  sabs := PrimFloat.abs;
  sltb := PrimFloat.ltb;
  sleb := PrimFloat.leb
|}.

(** *** Facts of arithmetic that the results below refer to *)

(** They hold for IEEE doubles as well as for exact numbers. *)

(** [-1 * a] is [-a] *)
Definition neg_one_mul_law (D : Type) `{Scalar D} : Prop :=
  forall a : D, smul (of_Z (-1)) a = sneg a.

(** [a <= b] excludes [a > b] *)
Definition le_not_gt_law (D : Type) `{Scalar D} : Prop :=
  forall a b : D, sleb a b = true -> sgtb a b = false.

(** no absolute value is below [abs(1.0) * -1.0] *)
Definition abs_above_neg_one_law (D : Type) `{Scalar D} : Prop :=
  forall v : D, sleb (sabs v) (smul (sabs (of_Z 1)) (of_Z (-1))) = false.

(** ** End-effector identifiers *)

(** [enum EndeffectorID { E0, E1, E2, E3, E4, E5 }]: an unscoped enumeration,
    used as an index into the containers.  The value is kept as the index it
    converts to. *)
Inductive EndeffectorID : Type := EE (index : nat).

Definition E0 := EE 0.
Definition E1 := EE 1.
Definition E2 := EE 2.
Definition E3 := EE 3.
Definition E4 := EE 4.
Definition E5 := EE 5.

Definition ee_index (ee : EndeffectorID) : nat := let 'EE i := ee in i.

(** ** Eigen vectors and matrices *)

(** [Eigen::VectorXd]: the coefficients in order. *)
Abbreviation VectorXd D := (list D) (only parsing).

Section Eigen.
Context {D : Type} `{Scalar D}.

(** [x.rows()], of type [Eigen::Index] *)
Definition vec_rows (x : VectorXd D) : Z := Z.of_nat (length x).

(** [VectorXd x(n)]: a vector of [n] coefficients.  They are not
    initialised by Eigen; the callers below overwrite every one of them
    before the vector is read. *)
Definition VectorXd_sized (n : Z) : result (VectorXd D) :=
  if (n <? 0)%Z then Fail EigenPrecondition else Ok (replicate (Z.to_nat n) (of_Z 0)).

(** [x(i)] read *)
Definition vec_coeff (x : VectorXd D) (i : nat) : result D :=
  match x !! i with
  | Some v => Ok v
  | None => Fail EigenPrecondition
  end.

(** [x(i) = v] *)
Definition vec_assign (x : VectorXd D) (i : nat) (v : D) : result (VectorXd D) :=
  if decide (i < length x) then Ok (<[i:=v]> x) else Fail EigenPrecondition.

(** [x.sum()].  Eigen leaves the order of the reduction open (it may be
    vectorised); it is taken left to right here, which gives the same
    value whenever the addition is associative and commutative. *)
Definition vec_sum (x : VectorXd D) : D := foldl sadd (of_Z 0) x.

(** [c * x] *)
Definition vec_scale (c : D) (x : VectorXd D) : VectorXd D := smul c <$> x.

(** [-x] *)
Definition vec_neg (x : VectorXd D) : VectorXd D := sneg <$> x.

(** [x - y], for vectors of equal size *)
Definition vec_sub (x y : VectorXd D) : VectorXd D := zip_with ssub x y.

(** [Eigen::MatrixXd], stored by columns as in Eigen's default layout:
    [m_cols] holds one vector of [m_rows] coefficients per column. *)
Record MatrixXd : Type := mkMatrixXd {
  m_rows : nat;
  m_cols : list (VectorXd D)
}.

(** [MatrixXd::Zero(r, c)] *)
Definition MatrixXd_Zero (r c : Z) : result MatrixXd :=
  if ((r <? 0) || (c <? 0))%Z then Fail EigenPrecondition
  else Ok (mkMatrixXd (Z.to_nat r)
                      (replicate (Z.to_nat c) (replicate (Z.to_nat r) (of_Z 0)))).

(** [m(i, j)] *)
Definition mat_coeff (m : MatrixXd) (i j : nat) : option D :=
  m_cols m !! j ≫= fun col => col !! i.

(** [m.col(j) = v]: the column index must exist and [v] must have as many
    coefficients as the matrix has rows. *)
Definition mat_col_assign (m : MatrixXd) (j : Z) (v : VectorXd D) : result MatrixXd :=
  if decide ((0 <= j < Z.of_nat (length (m_cols m)))%Z ∧ length v = m_rows m)
  then Ok (mkMatrixXd (m_rows m) (<[Z.to_nat j := v]> (m_cols m)))
  else Fail EigenPrecondition.

(** [m.col(j) -= v] *)
Definition mat_col_sub (m : MatrixXd) (j : Z) (v : VectorXd D) : result MatrixXd :=
  match m_cols m !! Z.to_nat j with
  | Some col =>
      if decide ((0 <= j)%Z ∧ length v = m_rows m)
      then Ok (mkMatrixXd (m_rows m) (<[Z.to_nat j := vec_sub col v]> (m_cols m)))
      else Fail EigenPrecondition
  | None => Fail EigenPrecondition
  end.

(** [Eigen::SparseMatrix<double, RowMajor>] (ifopt's [Jacobian]): the
    dimensions and the stored coefficients, keyed by (row, column).  The
    keys of [sp_coeffs] are the structurally present entries. *)
Record SparseMatrix : Type := mkSparse {
  sp_rows : nat;
  sp_cols : nat;
  sp_coeffs : gmap (nat * nat) D
}.

(** Eigen's [internal::isMuchSmallerThan(x, y, prec)] for real scalars:
    [abs(x) <= abs(y) * prec]. *)
Definition isMuchSmallerThan (x y prec : D) : bool :=
  sleb (sabs x) (smul (sabs y) prec).

(** all index pairs of an [r] by [c] matrix *)
Definition all_indices (r c : nat) : list (nat * nat) :=
  i ← seq 0 r; j ← seq 0 c; [(i, j)].

(** [m.sparseView(reference, epsilon)]: the coefficients of [m] that are
    not much smaller than [reference] with precision [epsilon] are stored,
    the others are dropped. *)
Definition sparseView (m : MatrixXd) (reference epsilon : D) : SparseMatrix :=
  mkSparse (m_rows m) (length (m_cols m))
    (foldr (fun ij acc =>
              match mat_coeff m ij.1 ij.2 with
              | Some v => if isMuchSmallerThan v reference epsilon then acc
                          else <[ij := v]> acc
              | None => acc
              end)
           ∅ (all_indices (m_rows m) (length (m_cols m)))).

(** set of structurally present entries *)
Definition sp_pattern (J : SparseMatrix) : gset (nat * nat) := dom (sp_coeffs J).

(** column [j] as stored: for every row, the stored coefficient if the
    entry is structurally present *)
Definition sp_col (J : SparseMatrix) (j : nat) : list (option D) :=
  (fun i => sp_coeffs J !! (i, j)) <$> seq 0 (sp_rows J).

End Eigen.

(** ** The contact schedule *)

(** [ifopt::Bounds(lower, upper)] *)
Record Bounds (D : Type) : Type := mkBounds { lower_ : D; upper_ : D }.
Arguments mkBounds {D} _ _.
Arguments lower_ {D} _.
Arguments upper_ {D} _.

(** Modelled from the spec: [id::EESchedule(ee)] of
    towr/variables/variable_names.h, which is not among the sources.  The
    spec only says that a schedule is identified by its end-effector; the
    name is kept as a constructor applied to the identifier. *)
Inductive VariableName : Type := EESchedule (ee : EndeffectorID).

(** [ContactScheduleObserver*]: observers are known by their address only. *)
Definition ObserverPtr : Type := nat.

(** Modelled from the spec: the data members of [ContactSchedule], declared
    in towr/variables/contact_schedule.h, which is not among the sources.
    They are the members that contact_schedule.cc reads and writes, and the
    spec's data model has the same: the phase durations, the total time,
    one pair of bounds, the observers.  [num_rows_] and [name_] are the two
    members of the base class [ifopt::VariableSet] that its constructor
    [VariableSet(int n_var, const std::string& name)] fills. *)
Record ContactSchedule (D : Type) : Type := mkContactSchedule {
  num_rows_ : Z;
  name_ : VariableName;
  durations_ : list D;
  t_total_ : D;
  phase_duration_bounds_ : Bounds D;
  observers_ : list ObserverPtr
}.
Arguments mkContactSchedule {D} _ _ _ _ _ _.
Arguments num_rows_ {D} _.
Arguments name_ {D} _.
Arguments durations_ {D} _.
Arguments t_total_ {D} _.
Arguments phase_duration_bounds_ {D} _.
Arguments observers_ {D} _.

Section Schedule.
Context {D : Type} `{Scalar D}.

(** [NDEBUG] is [true] when the translation unit is compiled with the
    macro NDEBUG defined, which turns [assert] into a no-op. *)
Context (NDEBUG : bool).

Abbreviation this_t := (ContactSchedule D).

(** *** Methods as state transformers that may fail *)

Definition M (A : Type) : Type := this_t -> result (A * this_t).

Definition ret {A} (a : A) : M A := fun this => Ok (a, this).

Definition bind {A B} (m : M A) (k : A -> M B) : M B :=
  fun this =>
    match m this with
    | Ok (a, this') => k a this'
    | Fail e => Fail e
    end.

Definition gets {A} (f : this_t -> A) : M A := fun this => Ok (f this, this).

Definition modify (f : this_t -> this_t) : M unit := fun this => Ok (tt, f this).

(** a computation on local values only *)
Definition lift {A} (r : result A) : M A :=
  fun this => result_map (fun a => (a, this)) r.

Notation "x <- c1 ;; c2" := (bind c1 (fun x => c2))
  (at level 100, c1 at next level, right associativity).
Notation "c1 ;; c2" := (bind c1 (fun _ => c2))
  (at level 100, right associativity).

(** [for (int i = 0; i < n; ++i) acc = body(i, acc);] for a bound [n]
    that the body does not change: iterations [0 .. n-1] in order, ended
    by the first one that fails. *)
Fixpoint for_upto {A} (n : nat) (body : nat -> A -> M A) (acc : A) : M A :=
  match n with
  | O => ret acc
  | S k => acc' <- for_upto k body acc ;; body k acc'
  end.

(** [for (auto& e : l) acc = body(e, acc);] *)
Fixpoint for_each {A B} (l : list B) (body : B -> A -> M A) (acc : A) : M A :=
  match l with
  | [] => ret acc
  | e :: l' => acc' <- body e acc ;; for_each l' body acc'
  end.

(** [assert(cond)]: the condition is not evaluated under NDEBUG *)
Definition c_assert (cond : M bool) : M unit :=
  if NDEBUG then ret tt
  else b <- cond ;; if b then ret tt else (fun _ => Fail AssertionFailed).

(** *** Access to the fields *)

Definition set_durations (d : list D) (this : this_t) : this_t :=
  mkContactSchedule (num_rows_ this) (name_ this) d (t_total_ this)
                    (phase_duration_bounds_ this) (observers_ this).

Definition set_observers (o : list ObserverPtr) (this : this_t) : this_t :=
  mkContactSchedule (num_rows_ this) (name_ this) (durations_ this) (t_total_ this)
                    (phase_duration_bounds_ this) o.

(** [GetRows()] of ifopt's [Component]: the stored number of rows *)
Definition GetRows : M Z := gets num_rows_.

(** [durations_.at(i)] read: std::out_of_range beyond the end *)
Definition durations_at (i : nat) : M D :=
  fun this =>
    match durations_ this !! i with
    | Some v => Ok (v, this)
    | None => Fail OutOfRange
    end.

(** [durations_.at(i) = v] *)
Definition durations_at_assign (i : nat) (v : D) : M unit :=
  fun this =>
    if decide (i < length (durations_ this))
    then Ok (tt, set_durations (<[i:=v]> (durations_ this)) this)
    else Fail OutOfRange.

(** [durations_.back()] read *)
Definition durations_back : M D :=
  fun this =>
    match last (durations_ this) with
    | Some v => Ok (v, this)
    | None => Fail Undefined
    end.

(** [durations_.back() = v] *)
Definition durations_back_assign (v : D) : M unit :=
  fun this =>
    match durations_ this with
    | [] => Fail Undefined
    | _ :: _ =>
        Ok (tt, set_durations (<[pred (length (durations_ this)) := v]> (durations_ this)) this)
    end.

(** *** The methods of contact_schedule.cc *)

(** The constructor.  [timings.size()-1] is computed in [size_t] and
    converted to the [int] parameter of [VariableSet];
    [std::accumulate(timings.begin(), timings.end(), 0.0)] adds from the
    left. *)
Definition ContactSchedule_new (ee : EndeffectorID) (timings : list D)
           (min_duration max_duration : D) : this_t :=
  mkContactSchedule
    (CInt.to_int (CInt.to_size_t (Z.of_nat (length timings) - 1)))
    (EESchedule ee)
    timings
    (foldl sadd (of_Z 0) timings)
    (mkBounds min_duration max_duration)
    [].

Definition AddObserver (o : ObserverPtr) : M unit :=
  modify (fun this => set_observers (observers_ this ++ [o]) this).

(** [UpdateObservers()]: calls [UpdatePhaseDurations()] on every observer
    in the order of registration.  The observers are outside this class;
    the value returned is the sequence of observers called. *)
Definition UpdateObservers : M (list ObserverPtr) :=
  obs <- gets observers_ ;;
  for_each obs (fun spline called => ret (called ++ [spline])) [].

Definition GetValues : M (VectorXd D) :=
  rows <- GetRows ;;
  x <- lift (VectorXd_sized rows) ;;
  for_upto (Z.to_nat (vec_rows x))
    (fun i x => v <- durations_at i ;; lift (vec_assign x i v)) x.

(** In [durations_.at(i) = x(i)] the right operand is evaluated first. *)
Definition SetVariables (x : VectorXd D) : M (list ObserverPtr) :=
  rows <- GetRows ;;
  for_upto (Z.to_nat rows)
    (fun i _ => v <- lift (vec_coeff x i) ;; durations_at_assign i v) tt ;;
  t_total <- gets t_total_ ;;
  durations_back_assign (ssub t_total (vec_sum x)) ;;
  c_assert (back <- durations_back ;; ret (sgtb back (of_Z 0))) ;;
  UpdateObservers.

Definition GetBounds : M (list (Bounds D)) :=
  rows <- GetRows ;;
  b <- gets phase_duration_bounds_ ;;
  for_upto (Z.to_nat rows) (fun _ bounds => ret (bounds ++ [b])) [].

(** [current_phase == durations_.size()-1] compares in [size_t]. *)
Definition GetJacobianOfPos (current_phase : Z) (dx_dT xd : VectorXd D)
  : M SparseMatrix :=
  let n_dim := CInt.to_int (vec_rows xd) in
  rows <- GetRows ;;
  jac <- lift (MatrixXd_Zero n_dim rows) ;;
  size <- gets (fun this => Z.of_nat (length (durations_ this))) ;;
  let in_last_phase :=
    (CInt.to_size_t current_phase =? CInt.to_size_t (size - 1))%Z in
  jac <- (if negb in_last_phase
          then lift (mat_col_assign jac current_phase dx_dT)
          else ret jac) ;;
  jac <- for_upto (Z.to_nat current_phase)
           (fun phase jac =>
              jac <- lift (mat_col_assign jac (Z.of_nat phase)
                                          (vec_scale (of_Z (-1)) xd)) ;;
              if in_last_phase
              then lift (mat_col_sub jac (Z.of_nat phase) dx_dT)
              else ret jac) jac ;;
  ret (sparseView jac (of_Z 1) (of_Z (-1))).

(** *** The states of a schedule *)

(** The states that a schedule built by the constructor goes through: the
    two methods that are not const are [SetVariables] and [AddObserver]. *)
Inductive reachable (init : this_t) : this_t -> Prop :=
| reach_new : reachable init init
| reach_SetVariables this x called this' :
    reachable init this ->
    SetVariables x this = Ok (called, this') ->
    reachable init this'
| reach_AddObserver this o this' :
    reachable init this ->
    AddObserver o this = Ok (tt, this') ->
    reachable init this'.

(** A timing list that the constructor is meant for: at least one phase,
    and a number of phases minus one that an [int] holds. *)
Definition valid_timings (timings : list D) : Prop :=
  timings <> [] /\ (Z.of_nat (length timings) - 1 <= CInt.INT_MAX)%Z.

End Schedule.

Arguments M : clear implicits.

(** ** Per-end-effector containers (xpp/endeffectors.h) *)

(** [Endeffectors<T>]: the member [Container ee_], a [std::deque<T>]. *)
Record Endeffectors (T : Type) : Type := mkEndeffectors { ee_ : list T }.
Arguments mkEndeffectors {T} _.
Arguments ee_ {T} _.

Section EndeffectorsT.
Context {T : Type}.

(** Modelled from the spec: the constructor [Endeffectors(int n_ee)] and
    [SetCount], defined in impl/endeffectors-impl.h, which is not among the
    sources.  Per the header, the count defines the number of
    end-effectors; the spec calls the container a fixed-size mapping from
    an identifier to a value.  The elements start value-initialised
    ([init]); a negative count does not give a container. *)
Definition Endeffectors_new (init : T) (n_ee : Z) : result (Endeffectors T) :=
  if (n_ee <? 0)%Z then Fail LengthError
  else Ok (mkEndeffectors (replicate (Z.to_nat n_ee) init)).

(** Modelled from the spec: [GetCount()] of impl/endeffectors-impl.h; per
    the header it returns the number of end-effectors this structure
    holds. *)
Definition GetCount (this : Endeffectors T) : Z := Z.of_nat (length (ee_ this)).

(** Modelled from the spec: [GetEEsOrdered()] of impl/endeffectors-impl.h;
    per the header it returns all end-effector IDs from E0 to EN, where the
    spec has the container order-preserving. *)
Definition GetEEsOrdered (this : Endeffectors T) : list EndeffectorID :=
  EE <$> seq 0 (length (ee_ this)).

(** Modelled from the spec: [At(ee)] of impl/endeffectors-impl.h, the
    per-element access of the spec, read. *)
Definition At (this : Endeffectors T) (ee : EndeffectorID) : result T :=
  match ee_ this !! ee_index ee with
  | Some v => Ok v
  | None => Fail OutOfRange
  end.

(** Modelled from the spec: [At(ee) = v], the per-element access of the
    spec, written. *)
Definition At_assign (this : Endeffectors T) (ee : EndeffectorID) (v : T)
  : result (Endeffectors T) :=
  if decide (ee_index ee < length (ee_ this))
  then Ok (mkEndeffectors (<[ee_index ee := v]> (ee_ this)))
  else Fail OutOfRange.

End EndeffectorsT.

(** [class EndeffectorsBool : public Endeffectors<bool>], no fields of its
    own; [bool()] is [false]. *)
Abbreviation EndeffectorsBool := (Endeffectors bool).

Definition EndeffectorsBool_new (n_ee : Z) : result EndeffectorsBool :=
  @Endeffectors_new bool false n_ee.

(** returns a copy with flipped boolean values *)
Definition Invert (this : EndeffectorsBool) : result EndeffectorsBool :=
  ret ← EndeffectorsBool_new (GetCount this);
  for_each_local (GetEEsOrdered this)
    (fun ee ret => v ← At this ee; At_assign ret ee (negb v)) ret.

(** number of endeffectors with flag set to TRUE *)
Definition GetTrueCount (this : EndeffectorsBool) : result Z :=
  for_each_local (GetEEsOrdered this)
    (fun ee count => v ← At this ee; Ok (if v : bool then (count + 1)%Z else count)) 0%Z.

(** ** Predicates used to state the results *)

Section ScheduleSpec.
Context {D : Type} `{Scalar D}.

(** what no method changes after construction, and the number of phases *)
Definition same_frame (a b : ContactSchedule D) : Prop :=
  num_rows_ b = num_rows_ a
  /\ name_ b = name_ a
  /\ t_total_ b = t_total_ a
  /\ phase_duration_bounds_ b = phase_duration_bounds_ a
  /\ length (durations_ b) = length (durations_ a).

(** a method keeps the frame whenever it returns *)
Definition keeps_frame {A} (m : M D A) : Prop :=
  forall this a this', m this = Ok (a, this') -> same_frame this this'.

(** the class invariant between the row count of the variable set and the
    stored durations *)
Definition rows_match (this : ContactSchedule D) : Prop :=
  durations_ this <> []
  /\ num_rows_ this = (Z.of_nat (length (durations_ this)) - 1)%Z
  /\ (num_rows_ this <= CInt.INT_MAX)%Z.

(** two objects with the same row count and the same number of phases *)
Definition alike (a b : ContactSchedule D) : Prop :=
  num_rows_ a = num_rows_ b /\ length (durations_ a) = length (durations_ b).

(** a method is const and its outcome depends on the row count and the
    number of phases only *)
Definition oblivious {A} (m : M D A) : Prop :=
  (forall this a this', m this = Ok (a, this') -> this' = this)
  /\ forall a b, alike a b -> result_map fst (m a) = result_map fst (m b).

(** the column that the loop of [GetJacobianOfPos] leaves for a phase
    before the current one *)
Definition earlier_column (in_last_phase : bool) (dx_dT xd : list D) : list D :=
  if in_last_phase then vec_sub (vec_scale (of_Z (-1)) xd) dx_dT
  else vec_scale (of_Z (-1)) xd.

(** the columns of the dense matrix that [GetJacobianOfPos] converts, for a
    schedule of [n] phases *)
Definition jacobian_columns (n current_phase : nat) (dx_dT xd : list D)
  : list (list D) :=
  let in_last_phase := bool_decide (current_phase = pred n) in
  replicate current_phase (earlier_column in_last_phase dx_dT xd)
  ++ (if in_last_phase then []
      else dx_dT :: replicate (n - 2 - current_phase)
                              (replicate (length xd) (of_Z 0))).

(** all durations but the last *)
Definition independent_durations (this : ContactSchedule D) : list D :=
  take (pred (length (durations_ this))) (durations_ this).

End ScheduleSpec.

(** ** A schedule to compute with *)

(** Three phases of 0.3, 0.4 and 0.3 seconds with duration bounds 0.1 and
    0.6, all counted in tenths of a second. *)
Definition example_schedule : ContactSchedule Z :=
  ContactSchedule_new E0 [3; 4; 3]%Z 1%Z 6%Z.

(** The example after [SetVariables([0.2, 0.5])]. *)
Definition example_schedule_moved : ContactSchedule Z :=
  set_durations [2; 5; 3]%Z example_schedule.

(** The same phases with durations 0.1, 0.1 and 0.8. *)
Definition other_schedule : ContactSchedule Z :=
  ContactSchedule_new E1 [1; 1; 8]%Z 1%Z 9%Z.

(** *** The scenario of the specification, in exact decimals *)

Definition decimal (n : Z) (d : positive) : Qc := Q2Qc (n # d).

(** 3 phases, initial durations [0.3, 0.4, 0.3], bounds [0.1, 0.6] *)
Definition scenario : ContactSchedule Qc :=
  ContactSchedule_new E0 [decimal 3 10; decimal 4 10; decimal 3 10]
                      (decimal 1 10) (decimal 6 10).

(** the durations after a call, as fractions in lowest terms *)
Definition durations_after {A} (r : result (A * ContactSchedule Qc))
  : result (list Q) :=
  result_map (fun p => this <$> durations_ p.2) r.

(** *** Schedules in binary64 *)

(** the doubles nearest to 0.1, 0.3, 0.4, 0.5 and 0.6 *)
Definition d0_1 : PrimFloat.float := 0x1.999999999999ap-4%float.
Definition d0_3 : PrimFloat.float := 0x1.3333333333333p-2%float.
Definition d0_4 : PrimFloat.float := 0x1.999999999999ap-2%float.
Definition d0_5 : PrimFloat.float := 0x1p-1%float.
Definition d0_6 : PrimFloat.float := 0x1.3333333333333p-1%float.

(** the scenario of the specification as the program has it: durations
    [0.3, 0.4, 0.3], bounds [0.1, 0.6] *)
Definition scenario_double : ContactSchedule PrimFloat.float :=
  ContactSchedule_new E0 [d0_3; d0_4; d0_3] d0_1 d0_6.

(** durations [0.1, 0.3, 0.5] *)
Definition rounding_schedule : ContactSchedule PrimFloat.float :=
  ContactSchedule_new E0 [d0_1; d0_3; d0_5] d0_1 d0_6.

(** ** Morphologies and the reversal of their tables (xpp/endeffectors.h) *)

#[global] Instance EndeffectorID_eq_dec : EqDecision EndeffectorID.
Proof. solve_decision. Defined.

#[global] Instance EndeffectorID_countable : Countable EndeffectorID.
Proof. refine (inj_countable' ee_index EE _). by intros []. Defined.

(** [namespace biped] *)
Module biped.

(** [enum FootID { L, R }] *)
Inductive FootID : Type := L | R.

#[global] Instance FootID_eq_dec : EqDecision FootID.
Proof. solve_decision. Defined.

#[global] Instance FootID_countable : Countable FootID.
Proof.
  refine (inj_countable' (fun f => match f with L => 0 | R => 1 end)
                         (fun n => match n with 0 => L | _ => R end) _).
  by intros [].
Defined.

End biped.

(** [namespace quad] *)
Module quad.

(** [enum FootID { RF, LF, LH, RH }] *)
Inductive FootID : Type := RF | LF | LH | RH.

(** [enum RotorID { L, R, F, H }] *)
Inductive RotorID : Type := L | R | F | H.

#[global] Instance FootID_eq_dec : EqDecision FootID.
Proof. solve_decision. Defined.

#[global] Instance FootID_countable : Countable FootID.
Proof.
  refine (inj_countable'
            (fun f => match f with RF => 0 | LF => 1 | LH => 2 | RH => 3 end)
            (fun n => match n with 0 => RF | 1 => LF | 2 => LH | _ => RH end) _).
  by intros [].
Defined.

#[global] Instance RotorID_eq_dec : EqDecision RotorID.
Proof. solve_decision. Defined.

#[global] Instance RotorID_countable : Countable RotorID.
Proof.
  refine (inj_countable'
            (fun f => match f with L => 0 | R => 1 | F => 2 | H => 3 end)
            (fun n => match n with 0 => L | 1 => R | 2 => F | _ => H end) _).
  by intros [].
Defined.

End quad.

(** [std::map<EndeffectorID, V>] is a finite map; what the code needs
    besides lookups is the order in which a range-for visits the entries:
    by ascending key, the keys being compared as the integers they are. *)
Definition key_le {V} (a b : EndeffectorID * V) : Prop :=
  ee_index a.1 <= ee_index b.1.

#[global] Instance key_le_dec {V} : RelDecision (@key_le V).
Proof. intros a b. unfold key_le. apply _. Defined.

Definition map_items {V} (m : gmap EndeffectorID V) : list (EndeffectorID * V) :=
  merge_sort key_le (map_to_list m).

(** [map.at(key)]: std::out_of_range for a key that is not in the map *)
Definition map_at `{Countable K} {V} (m : gmap K V) (key : K) : result V :=
  match m !! key with
  | Some v => Ok v
  | None => Fail OutOfRange
  end.

(** [static const std::map<EndeffectorID, FootID> kMapOptToBiped] *)
Definition kMapOptToBiped : gmap EndeffectorID biped.FootID :=
  list_to_map [(E0, biped.L); (E1, biped.R)].

(** [static const std::map<EndeffectorID, FootID> kMapOptToQuad] *)
Definition kMapOptToQuad : gmap EndeffectorID quad.FootID :=
  list_to_map [(E0, quad.LH); (E1, quad.LF); (E2, quad.RH); (E3, quad.RF)].

(** [static const std::map<EndeffectorID, RotorID> kMapOptToRotor] *)
Definition kMapOptToRotor : gmap EndeffectorID quad.RotorID :=
  list_to_map [(E0, quad.L); (E1, quad.F); (E2, quad.R); (E3, quad.H)].

(** [Reverse(map)]: for every entry in turn, [reverse[map.at(ee)] = ee]. *)
Definition Reverse `{Countable T} (map : gmap EndeffectorID T)
  : result (gmap T EndeffectorID) :=
  for_each_local (map_items map)
    (fun pair reverse =>
       let ee := pair.1 in
       v ← map_at map ee; Ok (<[v := ee]> reverse)) ∅.

(** What [stream << x] writes to a [std::ostream]: a value of the element
    type, formatted by its own [operator<<], or a piece of text. *)
Inductive written (T : Type) : Type :=
| Value (v : T)
| Text (s : string).
Arguments Value {T} v.
Arguments Text {T} s.

(** [operator<<(std::ostream&, Endeffectors<T>)], as the sequence of items
    that the call writes to the stream after what the stream holds. *)
Definition stream_out {T} (stream : list (written T)) (endeffectors : Endeffectors T)
  : result (list (written T)) :=
  for_each_local (GetEEsOrdered endeffectors)
    (fun ee stream => v ← At endeffectors ee; Ok (stream ++ [Value v; Text ", "]))
    stream.

(** ** Facts about the integer conversions *)

Lemma to_int_small z : (- 2147483648 <= z <= CInt.INT_MAX)%Z -> CInt.to_int z = z.
Proof.
  unfold CInt.to_int, CInt.INT_MAX. intros Hz.
  destruct (Z.ltb_spec (z mod 2 ^ 32) (2 ^ 31)) as [Hlt | Hge].
  - destruct (Z.neg_nonneg_cases z) as [Hneg | Hpos].
    + exfalso.
      assert (H1 : (z mod 2 ^ 32 = z + 2 ^ 32)%Z).
      { symmetry. apply (Z.mod_unique z (2 ^ 32) (- 1)); lia. }
      lia.
    + apply Z.mod_small. lia.
  - destruct (Z.neg_nonneg_cases z) as [Hneg | Hpos].
    + assert (H1 : (z mod 2 ^ 32 = z + 2 ^ 32)%Z).
      { symmetry. apply (Z.mod_unique z (2 ^ 32) (- 1)); lia. }
      lia.
    + exfalso. rewrite Z.mod_small in Hge by lia. lia.
Qed.

Lemma to_size_t_small z : (0 <= z < 2 ^ 64)%Z -> CInt.to_size_t z = z.
Proof. intros Hz. unfold CInt.to_size_t. apply Z.mod_small. lia. Qed.


(** ** Facts about the contact schedule *)

Section ScheduleFacts.
Context {D : Type} `{Scalar D}.
Implicit Types (this : ContactSchedule D) (x : list D) (v : D).

Lemma bind_Ok {A B} (m : M D A) (k : A -> M D B) this a this' :
  m this = Ok (a, this') -> bind m k this = k a this'.
Proof. intros Hm. unfold bind. by rewrite Hm. Qed.

Lemma bind_inv {A B} (m : M D A) (k : A -> M D B) this b this'' :
  bind m k this = Ok (b, this'') ->
  exists a this', m this = Ok (a, this') /\ k a this' = Ok (b, this'').
Proof.
  unfold bind. destruct (m this) as [[a this']|e]; [|done]. eauto.
Qed.

Lemma set_durations_same this : set_durations (durations_ this) this = this.
Proof. by destruct this. Qed.

Lemma same_frame_refl this : same_frame this this.
Proof. by repeat split. Qed.

Lemma same_frame_trans (a b c : ContactSchedule D) : same_frame a b -> same_frame b c -> same_frame a c.
Proof.
  intros (?&?&?&?&?) (?&?&?&?&?). repeat split; congruence.
Qed.

Lemma same_frame_set_durations this d :
  length d = length (durations_ this) -> same_frame this (set_durations d this).
Proof. intros Hd. by repeat split. Qed.

(** *** Frame rules *)

Lemma keeps_frame_ret {A} (a : A) : keeps_frame (D:=D) (ret a).
Proof. intros this a' this' [= _ <-]. apply same_frame_refl. Qed.

Lemma keeps_frame_gets {A} (f : ContactSchedule D -> A) : keeps_frame (gets f).
Proof. intros this a' this' [= _ <-]. apply same_frame_refl. Qed.

Lemma keeps_frame_lift {A} (r : result A) : keeps_frame (D:=D) (lift r).
Proof.
  intros this a' this'. unfold lift. destruct r; cbn; [|done].
  intros [= _ <-]. apply same_frame_refl.
Qed.

Lemma keeps_frame_fail {A} e : keeps_frame (D:=D) (A:=A) (fun _ => Fail e).
Proof. by intros this a this'. Qed.

Lemma keeps_frame_bind {A B} (m : M D A) (k : A -> M D B) :
  keeps_frame m -> (forall a, keeps_frame (k a)) -> keeps_frame (bind m k).
Proof.
  intros Hm Hk this b this'' Hrun.
  apply bind_inv in Hrun as (a & this' & Hm' & Hk').
  eapply same_frame_trans; [by eapply Hm | by eapply Hk].
Qed.

Lemma keeps_frame_for_upto {A} n (body : nat -> A -> M D A) acc :
  (forall i a, keeps_frame (body i a)) -> keeps_frame (for_upto n body acc).
Proof.
  intros Hbody. induction n as [|n IH]; cbn [for_upto].
  - apply keeps_frame_ret.
  - apply keeps_frame_bind; [exact IH | intros a; apply Hbody].
Qed.

Lemma keeps_frame_for_each {A B} (l : list B) (body : B -> A -> M D A) :
  (forall e a, keeps_frame (body e a)) -> forall acc, keeps_frame (for_each l body acc).
Proof.
  intros Hbody. induction l as [|e l IH]; intros acc; cbn [for_each].
  - apply keeps_frame_ret.
  - apply keeps_frame_bind; [apply Hbody | intros a; apply IH].
Qed.

Lemma keeps_frame_durations_at_assign i v : keeps_frame (durations_at_assign i v).
Proof.
  intros this a this'. unfold durations_at_assign. case_decide; [|done].
  intros [= _ <-]. apply same_frame_set_durations, length_insert.
Qed.

Lemma keeps_frame_durations_back_assign v : keeps_frame (durations_back_assign v).
Proof.
  intros this a this'. unfold durations_back_assign.
  destruct (durations_ this) eqn:Hd; [done|]. rewrite <- Hd.
  intros [= _ <-]. apply same_frame_set_durations, length_insert.
Qed.

Lemma keeps_frame_durations_back : keeps_frame (durations_back (D:=D)).
Proof.
  intros this a this'. unfold durations_back.
  destruct (last (durations_ this)); [|done].
  intros [= _ <-]. apply same_frame_refl.
Qed.

Lemma keeps_frame_c_assert NDEBUG (cond : M D bool) :
  keeps_frame cond -> keeps_frame (c_assert NDEBUG cond).
Proof.
  intros Hc. unfold c_assert. destruct NDEBUG; [apply keeps_frame_ret|].
  apply keeps_frame_bind; [exact Hc|].
  intros [|]; [apply keeps_frame_ret | apply keeps_frame_fail].
Qed.

Lemma keeps_frame_UpdateObservers : keeps_frame (UpdateObservers (D:=D)).
Proof.
  unfold UpdateObservers. apply keeps_frame_bind; [apply keeps_frame_gets|].
  intros obs. apply keeps_frame_for_each. intros e a. apply keeps_frame_ret.
Qed.

Lemma keeps_frame_SetVariables NDEBUG x : keeps_frame (SetVariables NDEBUG x).
Proof.
  unfold SetVariables, GetRows.
  apply keeps_frame_bind; [apply keeps_frame_gets|]. intros rows.
  apply keeps_frame_bind.
  { apply keeps_frame_for_upto. intros i a.
    apply keeps_frame_bind; [apply keeps_frame_lift|].
    intros v. apply keeps_frame_durations_at_assign. }
  intros _. apply keeps_frame_bind; [apply keeps_frame_gets|]. intros t.
  apply keeps_frame_bind; [apply keeps_frame_durations_back_assign|]. intros _.
  apply keeps_frame_bind; [|intros _; apply keeps_frame_UpdateObservers].
  apply keeps_frame_c_assert.
  apply keeps_frame_bind; [apply keeps_frame_durations_back|].
  intros b. apply keeps_frame_ret.
Qed.

Lemma keeps_frame_AddObserver o : keeps_frame (AddObserver (D:=D) o).
Proof. intros this a this' [= _ <-]. by repeat split. Qed.

Lemma reachable_same_frame NDEBUG init this :
  reachable NDEBUG init this -> same_frame init this.
Proof.
  induction 1 as [|this x called this' _ IH Hrun|this o this' _ IH Hrun].
  - apply same_frame_refl.
  - eapply same_frame_trans; [exact IH|]. by eapply keeps_frame_SetVariables.
  - eapply same_frame_trans; [exact IH|]. by eapply keeps_frame_AddObserver.
Qed.

Lemma rows_match_new ee (timings : list D) lo hi :
  valid_timings timings -> rows_match (ContactSchedule_new ee timings lo hi).
Proof.
  intros [Hne Hlen]. unfold rows_match. cbn.
  assert (Hpos : (1 <= Z.of_nat (length timings))%Z).
  { destruct timings; [done|]. cbn [length]. lia. }
  unfold CInt.INT_MAX in *.
  rewrite to_size_t_small by lia.
  rewrite to_int_small by (unfold CInt.INT_MAX; lia).
  repeat split; [done|lia].
Qed.

Lemma rows_match_same_frame (a b : ContactSchedule D) : same_frame a b -> rows_match a -> rows_match b.
Proof.
  intros (Hr&_&_&_&Hl) (Hne&Hrows&Hmax). unfold rows_match.
  rewrite Hr, Hl. repeat split; [|done..].
  intros Hnil. apply Hne. apply length_zero_iff_nil.
  rewrite <- Hl, Hnil. done.
Qed.

Lemma reachable_rows_match NDEBUG ee (timings : list D) lo hi this :
  valid_timings timings ->
  reachable NDEBUG (ContactSchedule_new ee timings lo hi) this ->
  rows_match this.
Proof.
  intros Hv Hr. eapply rows_match_same_frame.
  - by eapply reachable_same_frame.
  - by apply rows_match_new.
Qed.

(** *** What the methods compute *)

Lemma for_each_collect (l : list ObserverPtr) : forall acc this,
  for_each l (fun spline called => ret (called ++ [spline])) acc this
  = Ok (acc ++ l, this).
Proof.
  induction l as [|e l IH]; intros acc this; cbn [for_each].
  - by rewrite app_nil_r.
  - unfold bind at 1. cbn. rewrite IH. by rewrite <- app_assoc.
Qed.

Lemma UpdateObservers_eq this : UpdateObservers this = Ok (observers_ this, this).
Proof. unfold UpdateObservers, bind, gets. apply for_each_collect. Qed.

Lemma set_durations_twice this (d d' : list D) :
  set_durations d' (set_durations d this) = set_durations d' this.
Proof. reflexivity. Qed.

(** After [n] rounds of the loop of [SetVariables] the first [n] durations
    are those of [x]. *)
Lemma SetVariables_loop x n : forall this,
  n <= length x -> n <= length (durations_ this) ->
  for_upto n (fun i _ => bind (lift (vec_coeff x i))
                              (fun v => durations_at_assign i v)) tt this
  = Ok (tt, set_durations (take n x ++ drop n (durations_ this)) this).
Proof.
  induction n as [|n IH]; intros this Hx Hd; cbn [for_upto].
  - unfold ret. rewrite take_0, drop_0. cbn [app]. by rewrite set_durations_same.
  - erewrite bind_Ok by (apply IH; lia). cbv beta.
    destruct (lookup_lt_is_Some_2 x n) as [v Hv]; [lia|].
    destruct (lookup_lt_is_Some_2 (durations_ this) n) as [dn Hdn]; [lia|].
    unfold bind, lift, vec_coeff. rewrite Hv. cbn [result_map].
    unfold durations_at_assign. cbn [durations_ set_durations].
    rewrite decide_True.
    2:{ rewrite length_app, length_take_le, length_drop by lia. lia. }
    do 2 f_equal. unfold set_durations. cbn. f_equal.
    rewrite insert_app_r_alt by (rewrite length_take_le; lia).
    rewrite length_take_le by lia. rewrite Nat.sub_diag.
    rewrite (drop_S _ _ _ Hdn). cbn.
    rewrite (take_S_r _ _ _ Hv). by rewrite <- app_assoc.
Qed.

Lemma durations_back_assign_snoc this (a : list D) (l v : D) :
  durations_ this = a ++ [l] ->
  durations_back_assign v this = Ok (tt, set_durations (a ++ [v]) this).
Proof.
  intros Hd. unfold durations_back_assign. rewrite Hd.
  destruct (a ++ [l]) as [|y ys] eqn:Hal.
  { by destruct a. }
  rewrite <- Hal. do 3 f_equal.
  rewrite length_app. cbn [length]. rewrite Nat.add_1_r. cbn [pred].
  rewrite insert_app_r_alt by lia. by rewrite Nat.sub_diag.
Qed.

Lemma durations_back_snoc this (a : list D) (l : D) :
  durations_ this = a ++ [l] -> durations_back this = Ok (l, this).
Proof. intros Hd. unfold durations_back. by rewrite Hd, last_snoc. Qed.

Lemma rows_match_nonneg this : rows_match this -> (0 <= num_rows_ this)%Z.
Proof.
  intros (Hne & Hrows & _). destruct (durations_ this); [done|].
  cbn [length] in Hrows. lia.
Qed.

Lemma rows_match_snoc this :
  rows_match this ->
  exists l, durations_ this = independent_durations this ++ [l]
            /\ last (durations_ this) = Some l
            /\ Z.to_nat (num_rows_ this) = pred (length (durations_ this)).
Proof.
  intros (Hne & Hrows & _). unfold independent_durations.
  destruct (durations_ this) as [|y ys] eqn:Hd using rev_ind; [done|].
  clear IHys. exists y. rewrite length_app. cbn [length].
  rewrite Nat.add_1_r. cbn [pred]. rewrite take_app_length.
  split; [done|]. split; [apply last_snoc|].
  rewrite Hrows, length_app. cbn [length]. lia.
Qed.

(** [SetVariables] on a vector that has at least as many coefficients as
    there are rows. *)
Lemma SetVariables_eq NDEBUG x this :
  rows_match this ->
  (num_rows_ this <= Z.of_nat (length x))%Z ->
  SetVariables NDEBUG x this =
    if NDEBUG || sgtb (ssub (t_total_ this) (vec_sum x)) (of_Z 0)
    then Ok (observers_ this,
             set_durations (take (Z.to_nat (num_rows_ this)) x
                              ++ [ssub (t_total_ this) (vec_sum x)]) this)
    else Fail AssertionFailed.
Proof.
  intros Hrm Hx.
  destruct (rows_match_snoc this Hrm) as (l & Hd & _ & Hr).
  unfold SetVariables, GetRows.
  erewrite bind_Ok by reflexivity.
  erewrite bind_Ok.
  2:{ apply SetVariables_loop; lia. }
  erewrite bind_Ok by reflexivity.
  erewrite bind_Ok.
  2:{ apply (durations_back_assign_snoc _ (take (Z.to_nat (num_rows_ this)) x) l).
      cbn [durations_ set_durations]. f_equal.
      rewrite Hr. rewrite Hd at 2.
      assert (Hl : length (independent_durations this) = pred (length (durations_ this))).
      { unfold independent_durations. rewrite length_take_le; lia. }
      rewrite <- Hl. by rewrite drop_app_length. }
  rewrite set_durations_twice.
  cbn [t_total_ set_durations].
  set (last' := ssub (t_total_ this) (vec_sum x)).
  set (this' := set_durations _ this).
  unfold c_assert. destruct NDEBUG; cbn [orb].
  - erewrite bind_Ok by reflexivity. by rewrite UpdateObservers_eq.
  - assert (Hback : durations_back this' = Ok (last', this')).
    { eapply durations_back_snoc. reflexivity. }
    destruct (sgtb last' (of_Z 0)) eqn:Hgt.
    + erewrite bind_Ok.
      2:{ erewrite bind_Ok by (erewrite bind_Ok by exact Hback; reflexivity).
          rewrite Hgt. reflexivity. }
      by rewrite UpdateObservers_eq.
    + unfold bind at 1. unfold bind at 1. unfold bind at 1.
      rewrite Hback. unfold ret. by rewrite Hgt.
Qed.

(** After [n] rounds of the loop of [GetValues] the first [n] coefficients
    are the first [n] durations. *)
Lemma GetValues_loop n : forall this x,
  n <= length x -> n <= length (durations_ this) ->
  for_upto n (fun i x => bind (durations_at i) (fun v => lift (vec_assign x i v))) x this
  = Ok (take n (durations_ this) ++ drop n x, this).
Proof.
  induction n as [|n IH]; intros this x Hx Hd; cbn [for_upto].
  - reflexivity.
  - erewrite bind_Ok by (apply IH; lia). cbv beta.
    destruct (lookup_lt_is_Some_2 (durations_ this) n) as [dn Hdn]; [lia|].
    destruct (lookup_lt_is_Some_2 x n) as [xn Hxn]; [lia|].
    unfold bind, durations_at. rewrite Hdn.
    unfold lift, vec_assign.
    rewrite decide_True.
    2:{ rewrite length_app, length_take_le, length_drop by lia. lia. }
    cbn [result_map]. do 2 f_equal.
    rewrite insert_app_r_alt by (rewrite length_take_le; lia).
    rewrite length_take_le by lia. rewrite Nat.sub_diag.
    rewrite (drop_S _ _ _ Hxn). cbn.
    rewrite (take_S_r _ _ _ Hdn). by rewrite <- app_assoc.
Qed.

Lemma GetValues_eq this :
  rows_match this -> GetValues this = Ok (independent_durations this, this).
Proof.
  intros Hrm. destruct (rows_match_snoc this Hrm) as (l & Hd & _ & Hr).
  pose proof (rows_match_nonneg this Hrm) as Hnn.
  destruct Hrm as (Hne & Hrows & _).
  unfold GetValues, GetRows.
  erewrite bind_Ok by reflexivity.
  unfold VectorXd_sized.
  destruct (Z.ltb_spec (num_rows_ this) 0) as [Hneg|Hpos]; [lia|].
  erewrite bind_Ok by reflexivity.
  unfold vec_rows. rewrite length_replicate, Nat2Z.id.
  rewrite GetValues_loop.
  - rewrite drop_ge by (rewrite length_replicate; lia).
    rewrite app_nil_r. unfold independent_durations. by rewrite Hr.
  - rewrite length_replicate. lia.
  - lia.
Qed.

(** *** Results on [GetRows], [GetValues] and [SetVariables] *)

(** C7: for a schedule built from a timing list of n phases (n at least 1),
    in any state it reaches, [GetRows()] returns n - 1, and [GetValues()]
    returns, without changing the object, a vector of [GetRows()]
    coefficients whose i-th coefficient is the i-th stored duration. *)
Theorem GetRows_GetValues_spec NDEBUG ee (timings : list D) lo hi this :
  valid_timings timings ->
  reachable NDEBUG (ContactSchedule_new ee timings lo hi) this ->
  GetRows this = Ok ((Z.of_nat (length timings) - 1)%Z, this)
  /\ exists vals : list D,
       GetValues this = Ok (vals, this)
       /\ Z.of_nat (length vals) = (Z.of_nat (length timings) - 1)%Z
       /\ forall i, i < length vals -> vals !! i = durations_ this !! i.
Proof.
  intros Hv Hreach.
  pose proof (reachable_rows_match _ _ _ _ _ _ Hv Hreach) as Hrm.
  pose proof (reachable_same_frame _ _ _ Hreach) as (Hrows & _ & _ & _ & Hlen).
  cbn [durations_ ContactSchedule_new] in Hlen.
  destruct (rows_match_snoc this Hrm) as (l & Hd & _ & Hr).
  pose proof (rows_match_nonneg this Hrm) as Hnn.
  pose proof (GetValues_eq this Hrm) as Hvals.
  destruct Hrm as (Hne & Hrm & _).
  split.
  { unfold GetRows, gets. rewrite Hrm, Hlen. reflexivity. }
  exists (independent_durations this).
  split; [exact Hvals|].
  assert (Hil : length (independent_durations this) = pred (length (durations_ this))).
  { unfold independent_durations. rewrite length_take_le; lia. }
  split.
  { rewrite Hil, <- Hlen. lia. }
  intros i Hi. unfold independent_durations. apply lookup_take_lt. lia.
Qed.

(** C1 (as amended): for a schedule built from a timing list, in any state
    it reaches, and a vector x of [GetRows()] coefficients:
    [SetVariables(x)] returns unless the assertion on the last duration
    fails; the durations after the call are x followed by the double
    total_time - sum(x), the total time is still the one that the
    constructor computed from the timing list, and [GetValues()] then
    returns x.  Nothing is said of the sum of these values plus the last
    duration: in double it need not be the total time. *)
Theorem SetVariables_stores_x_and_derived_last
        NDEBUG ee (timings : list D) lo hi this x :
  valid_timings timings ->
  reachable NDEBUG (ContactSchedule_new ee timings lo hi) this ->
  Z.of_nat (length x) = num_rows_ this ->
  exists (this' : ContactSchedule D) (last' : D),
    SetVariables NDEBUG x this
      = (if NDEBUG || sgtb last' (of_Z 0)
         then Ok (observers_ this, this') else Fail AssertionFailed)
    /\ last' = ssub (foldl sadd (of_Z 0) timings) (vec_sum x)
    /\ durations_ this' = x ++ [last']
    /\ t_total_ this' = foldl sadd (of_Z 0) timings
    /\ GetValues this' = Ok (x, this').
Proof.
  intros Hv Hreach Hx.
  pose proof (reachable_rows_match _ _ _ _ _ _ Hv Hreach) as Hrm.
  pose proof (reachable_same_frame _ _ _ Hreach) as (_ & _ & Ht & _ & _).
  cbn [t_total_ ContactSchedule_new] in Ht.
  pose proof (SetVariables_eq NDEBUG x this Hrm ltac:(lia)) as Hrun.
  rewrite <- Hx, Nat2Z.id, firstn_all, Ht in Hrun.
  set (last' := ssub (foldl sadd (of_Z 0) timings) (vec_sum x)) in *.
  set (this' := set_durations (x ++ [last']) this) in *.
  exists this', last'.
  split; [exact Hrun|]. split; [done|]. split; [done|]. split; [exact Ht|].
  assert (Hrm' : rows_match this').
  { eapply rows_match_same_frame; [|exact Hrm].
    apply same_frame_set_durations.
    pose proof Hrm as (_ & Hrows & _).
    rewrite length_app. cbn [length]. lia. }
  rewrite (GetValues_eq this' Hrm'). do 2 f_equal.
  unfold independent_durations. cbn [durations_ this' set_durations].
  rewrite length_app. cbn [length]. rewrite Nat.add_1_r. cbn [pred].
  apply take_app_length.
Qed.

(** C4: with assertions compiled in, [SetVariables(x)] ends in a failed
    assertion whenever the recomputed last duration total_time - sum(x) is
    not above zero; it does not return. *)
Theorem SetVariables_asserts_last_positive ee (timings : list D) lo hi this x :
  le_not_gt_law D ->
  valid_timings timings ->
  reachable false (ContactSchedule_new ee timings lo hi) this ->
  (num_rows_ this <= Z.of_nat (length x))%Z ->
  sleb (ssub (t_total_ this) (vec_sum x)) (of_Z 0) = true ->
  SetVariables false x this = Fail AssertionFailed.
Proof.
  intros Hlaw Hv Hreach Hx Hle.
  pose proof (reachable_rows_match _ _ _ _ _ _ Hv Hreach) as Hrm.
  rewrite (SetVariables_eq false x this Hrm Hx).
  by rewrite (Hlaw _ _ Hle).
Qed.

(** Under NDEBUG the same call returns, with the non-positive last
    duration stored. *)
Lemma SetVariables_NDEBUG_returns x this :
  rows_match this ->
  (num_rows_ this <= Z.of_nat (length x))%Z ->
  exists this', SetVariables true x this = Ok (observers_ this, this')
                /\ last (durations_ this') = Some (ssub (t_total_ this) (vec_sum x)).
Proof.
  intros Hrm Hx. rewrite (SetVariables_eq true x this Hrm Hx). cbn [orb].
  eexists. split; [reflexivity|]. cbn [durations_ set_durations]. apply last_snoc.
Qed.

(** C5 (as amended): in any state that a schedule built from a timing list
    reaches, [SetVariables(GetValues())] returns unless the assertion on the
    recomputed last duration fails; it stores the independent durations
    that were there and, as the last duration, the double
    total_time - sum(GetValues()).  The object is unchanged exactly when
    that value is the last duration that was stored. *)
Theorem SetVariables_GetValues_recomputes_last
        NDEBUG ee (timings : list D) lo hi this :
  valid_timings timings ->
  reachable NDEBUG (ContactSchedule_new ee timings lo hi) this ->
  exists (vals : list D) (l last' : D) (this' : ContactSchedule D),
    GetValues this = Ok (vals, this)
    /\ durations_ this = vals ++ [l]
    /\ last' = ssub (t_total_ this) (vec_sum vals)
    /\ SetVariables NDEBUG vals this
       = (if NDEBUG || sgtb last' (of_Z 0)
          then Ok (observers_ this, this') else Fail AssertionFailed)
    /\ durations_ this' = vals ++ [last']
    /\ (this' = this <-> last' = l).
Proof.
  intros Hv Hreach.
  pose proof (reachable_rows_match _ _ _ _ _ _ Hv Hreach) as Hrm.
  destruct (rows_match_snoc this Hrm) as (l & Hd & Hlast & Hr).
  pose proof (rows_match_nonneg this Hrm) as Hnn.
  assert (Hil : length (independent_durations this) = pred (length (durations_ this))).
  { unfold independent_durations. destruct Hrm as (_ & ? & _).
    rewrite length_take_le; lia. }
  set (vals := independent_durations this) in *.
  set (last' := ssub (t_total_ this) (vec_sum vals)).
  exists vals, l, last', (set_durations (vals ++ [last']) this).
  split; [by apply GetValues_eq|]. split; [exact Hd|]. split; [done|].
  split.
  { rewrite (SetVariables_eq NDEBUG _ this Hrm) by lia.
    by rewrite Hr, <- Hil, firstn_all. }
  split; [done|]. split.
  - intros Hsame. apply (f_equal durations_) in Hsame.
    cbn [durations_ set_durations] in Hsame. rewrite Hd in Hsame.
    apply app_inj_1 in Hsame as [_ Hl]; [|done]. by injection Hl.
  - intros ->. rewrite <- Hd. apply set_durations_same.
Qed.

(** C8: the total time is set by the constructor to the sum of the timing
    list and is the same in every state the schedule reaches, and so are
    the bounds and the name built from the end-effector; a call of
    [SetVariables] that returns leaves the three as they were. *)
Theorem total_time_fixed NDEBUG ee (timings : list D) lo hi this :
  reachable NDEBUG (ContactSchedule_new ee timings lo hi) this ->
  t_total_ (ContactSchedule_new ee timings lo hi) = foldl sadd (of_Z 0) timings
  /\ t_total_ this = foldl sadd (of_Z 0) timings
  /\ phase_duration_bounds_ this = mkBounds lo hi
  /\ name_ this = EESchedule ee
  /\ forall x called this',
       SetVariables NDEBUG x this = Ok (called, this') ->
       t_total_ this' = t_total_ this
       /\ phase_duration_bounds_ this' = phase_duration_bounds_ this
       /\ name_ this' = name_ this.
Proof.
  intros Hreach.
  pose proof (reachable_same_frame _ _ _ Hreach) as (_ & Hn & Ht & Hb & _).
  cbn in Hn, Ht, Hb.
  split; [done|]. split; [done|]. split; [done|]. split; [done|].
  intros x called this' Hrun.
  apply keeps_frame_SetVariables in Hrun as (_ & Hn' & Ht' & Hb' & _). done.
Qed.

(** *** The Jacobian *)

Lemma earlier_column_length in_last (dx xd : list D) :
  length dx = length xd -> length (earlier_column in_last dx xd) = length xd.
Proof.
  intros Hdx. unfold earlier_column, vec_sub, vec_scale. destruct in_last.
  - rewrite length_zip_with, length_fmap. lia.
  - apply length_fmap.
Qed.

(** After [k] rounds of the loop, the first [k] columns are those of the
    earlier phases and the others are as before. *)
Lemma jacobian_loop (in_last : bool) (dx xd : list D) k : forall jac this,
  k <= length (m_cols jac) ->
  length xd = m_rows jac ->
  (in_last = true -> length dx = m_rows jac) ->
  for_upto k
    (fun phase jac =>
       bind (lift (mat_col_assign jac (Z.of_nat phase) (vec_scale (of_Z (-1)) xd)))
            (fun jac => if in_last
                        then lift (mat_col_sub jac (Z.of_nat phase) dx)
                        else ret jac)) jac this
  = Ok (mkMatrixXd (m_rows jac)
          (replicate k (earlier_column in_last dx xd) ++ drop k (m_cols jac)),
        this).
Proof.
  induction k as [|k IH]; intros jac this Hk Hxd Hdx; cbn [for_upto].
  - unfold ret. cbn [replicate app]. rewrite drop_0. by destruct jac.
  - erewrite bind_Ok by (apply IH; [lia|done..]). cbv beta.
    destruct (lookup_lt_is_Some_2 (m_cols jac) k) as [ck Hck]; [lia|].
    set (cols := replicate k (earlier_column in_last dx xd) ++ drop k (m_cols jac)).
    assert (Hlen : length cols = length (m_cols jac)).
    { subst cols. rewrite length_app, length_replicate, length_drop. lia. }
    assert (Hins : forall c, <[k:=c]> cols
                   = replicate k (earlier_column in_last dx xd) ++ c :: drop (S k) (m_cols jac)).
    { intros c. subst cols.
      rewrite insert_app_r_alt by (rewrite length_replicate; lia).
      rewrite length_replicate, Nat.sub_diag. by rewrite (drop_S _ _ _ Hck). }
    unfold bind at 1. unfold lift at 1. unfold mat_col_assign.
    cbn [m_cols m_rows].
    rewrite decide_True.
    2:{ split; [lia|]. unfold vec_scale. by rewrite length_fmap. }
    cbn [result_map]. rewrite Nat2Z.id, Hins.
    assert (Hfin : forall c, replicate k c ++ c :: drop (S k) (m_cols jac)
                             = replicate (S k) c ++ drop (S k) (m_cols jac)).
    { intros c. rewrite replicate_S_end, <- app_assoc. done. }
    destruct in_last.
    + unfold lift, mat_col_sub. cbn [m_cols m_rows]. rewrite Nat2Z.id.
      rewrite list_lookup_middle by (by rewrite length_replicate).
      rewrite decide_True by (split; [lia|by apply Hdx]).
      cbn [result_map]. do 3 f_equal.
      rewrite <- Hins, list_insert_insert_eq, Hins. apply Hfin.
    + unfold ret. do 3 f_equal. apply Hfin.
Qed.

Lemma jacobian_columns_length n cp (dx xd : list D) :
  cp < n -> length (jacobian_columns n cp dx xd) = pred n.
Proof.
  intros Hcp. unfold jacobian_columns. rewrite length_app, length_replicate.
  case_bool_decide; cbn [length]; [lia|]. rewrite length_replicate. lia.
Qed.

Lemma jacobian_columns_earlier n cp (dx xd : list D) p :
  p < cp ->
  jacobian_columns n cp dx xd !! p
  = Some (earlier_column (bool_decide (cp = pred n)) dx xd).
Proof.
  intros Hp. unfold jacobian_columns.
  rewrite lookup_app_l by (by rewrite length_replicate).
  by apply lookup_replicate_2.
Qed.

Lemma jacobian_columns_current n cp (dx xd : list D) :
  cp <> pred n -> jacobian_columns n cp dx xd !! cp = Some dx.
Proof.
  intros Hcp. unfold jacobian_columns. rewrite bool_decide_eq_false_2 by done.
  by rewrite list_lookup_middle by (by rewrite length_replicate).
Qed.

(** every column of the dense matrix has [length xd] coefficients *)
Lemma jacobian_columns_wf n cp (dx xd : list D) j col :
  length dx = length xd ->
  jacobian_columns n cp dx xd !! j = Some col -> length col = length xd.
Proof.
  intros Hdx. unfold jacobian_columns. intros Hj.
  apply lookup_app_Some in Hj as [Hj | [_ Hj]].
  - apply lookup_replicate in Hj as [-> _]. by apply earlier_column_length.
  - case_bool_decide; [by rewrite lookup_nil in Hj|].
    apply lookup_cons_Some in Hj as [[_ <-] | [_ Hj]]; [done|].
    apply lookup_replicate in Hj as [-> _]. apply length_replicate.
Qed.

(** [GetJacobianOfPos] for a phase index of the schedule and two vectors of
    one size: the call returns the sparse view of the dense matrix with the
    columns above and leaves the object alone. *)
Lemma GetJacobianOfPos_eq this (cp : Z) (dx xd : list D) :
  rows_match this ->
  (0 <= cp < Z.of_nat (length (durations_ this)))%Z ->
  length dx = length xd ->
  (Z.of_nat (length xd) <= CInt.INT_MAX)%Z ->
  GetJacobianOfPos cp dx xd this
  = Ok (sparseView
          (mkMatrixXd (length xd)
             (jacobian_columns (length (durations_ this)) (Z.to_nat cp) dx xd))
          (of_Z 1) (of_Z (-1)),
        this).
Proof.
  intros Hrm Hcp Hdx Hxd.
  pose proof (rows_match_nonneg this Hrm) as Hnn.
  destruct Hrm as (Hne & Hrows & Hmax).
  set (n := length (durations_ this)) in *.
  unfold GetJacobianOfPos, GetRows, vec_rows.
  rewrite to_int_small by (unfold CInt.INT_MAX in *; lia).
  erewrite bind_Ok by reflexivity.
  unfold MatrixXd_Zero.
  destruct (Z.ltb_spec (Z.of_nat (length xd)) 0) as [?|_]; [lia|].
  destruct (Z.ltb_spec (num_rows_ this) 0) as [?|_]; [lia|].
  cbn [orb]. erewrite bind_Ok by reflexivity.
  erewrite bind_Ok by reflexivity. fold n.
  unfold CInt.INT_MAX in *.
  rewrite !to_size_t_small by lia.
  rewrite Nat2Z.id.
  assert (Hr : Z.to_nat (num_rows_ this) = pred n) by lia.
  rewrite Hr.
  set (zero := replicate (length xd) (of_Z 0)).
  unfold jacobian_columns.
  destruct (Z.eqb_spec cp (Z.of_nat n - 1)) as [Hlast | Hnot]; cbn [negb].
  - rewrite bool_decide_eq_true_2 by lia.
    erewrite bind_Ok by reflexivity.
    erewrite bind_Ok.
    2:{ apply (jacobian_loop true dx xd); cbn [m_cols m_rows]; [|done..].
        rewrite length_replicate. lia. }
    unfold ret. cbn [m_cols m_rows]. do 5 f_equal.
    apply drop_ge. rewrite length_replicate. lia.
  - rewrite bool_decide_eq_false_2 by lia.
    erewrite bind_Ok.
    2:{ unfold lift, mat_col_assign. cbn [m_cols m_rows].
        rewrite decide_True; [reflexivity|].
        rewrite length_replicate. split; [lia|done]. }
    erewrite bind_Ok.
    2:{ apply (jacobian_loop false dx xd); cbn [m_cols m_rows]; [|done..].
        rewrite length_insert, length_replicate. lia. }
    unfold ret. cbn [m_cols m_rows]. do 5 f_equal.
    rewrite drop_insert_ge by lia. rewrite Nat.sub_diag.
    rewrite drop_replicate.
    replace (pred n - Z.to_nat cp) with (S (n - 2 - Z.to_nat cp)) by lia.
    reflexivity.
Qed.

(** *** The sparse view *)

Lemma all_indices_elem r c i j : (i, j) ∈ all_indices r c <-> i < r /\ j < c.
Proof.
  unfold all_indices. rewrite list_elem_of_bind. split.
  - intros (i' & Hin & Hi'). apply list_elem_of_bind in Hin as (j' & Hin & Hj').
    apply list_elem_of_singleton in Hin as [= -> ->].
    apply elem_of_seq in Hi'. apply elem_of_seq in Hj'. lia.
  - intros [Hi Hj]. exists i. split; [|apply elem_of_seq; lia].
    apply list_elem_of_bind. exists j. split; [|apply elem_of_seq; lia].
    by apply list_elem_of_singleton.
Qed.

(** a stored coefficient is one of the listed entries that is not much
    smaller than the reference *)
Lemma sparseView_fold_lookup (m : MatrixXd (D:=D)) r e l k :
  foldr (fun ij acc =>
           match mat_coeff m ij.1 ij.2 with
           | Some v => if isMuchSmallerThan v r e then acc else <[ij := v]> acc
           | None => acc
           end) (∅ : gmap (nat * nat) D) l !! k
  = if decide (k ∈ l)
    then mat_coeff m k.1 k.2 ≫= fun v => if isMuchSmallerThan v r e then None else Some v
    else None.
Proof.
  induction l as [|a l IH]; cbn [foldr].
  - rewrite lookup_empty. case_decide as Hin; [|done]. by apply elem_of_nil in Hin.
  - destruct (decide (k = a)) as [->|Hne].
    + rewrite (decide_True (P:=a ∈ a :: l)) by (apply elem_of_cons; by left).
      destruct (mat_coeff m a.1 a.2) as [v|] eqn:Hc; cbn [mbind option_bind].
      * destruct (isMuchSmallerThan v r e) eqn:Hs.
        -- rewrite IH. case_decide; [|done]. rewrite ?Hc. cbn. by rewrite ?Hs.
        -- by rewrite lookup_insert_eq.
      * rewrite IH. case_decide; [|done]. by rewrite ?Hc.
    + rewrite (decide_ext (k ∈ a :: l) (k ∈ l)).
      2:{ rewrite elem_of_cons. split; [by intros [?|?]|by right]. }
      rewrite <- IH.
      destruct (mat_coeff m a.1 a.2) as [v|]; [|done].
      destruct (isMuchSmallerThan v r e); [done|].
      by rewrite lookup_insert_ne.
Qed.

Lemma sparseView_lookup (m : MatrixXd (D:=D)) r e i j :
  sp_coeffs (sparseView m r e) !! (i, j)
  = if decide (i < m_rows m /\ j < length (m_cols m))
    then mat_coeff m i j ≫= fun v => if isMuchSmallerThan v r e then None else Some v
    else None.
Proof.
  unfold sparseView. cbn [sp_coeffs]. rewrite sparseView_fold_lookup.
  apply decide_ext, all_indices_elem.
Qed.

(** With reference 1.0 and precision -1.0 nothing is dropped. *)
Lemma sparseView_keeps_all (m : MatrixXd (D:=D)) i j col :
  abs_above_neg_one_law D ->
  m_cols m !! j = Some col -> length col = m_rows m ->
  sp_coeffs (sparseView m (of_Z 1) (of_Z (-1))) !! (i, j) = col !! i.
Proof.
  intros Hlaw Hcol Hlen. rewrite sparseView_lookup.
  unfold mat_coeff. rewrite Hcol. cbn [mbind option_bind].
  case_decide as Hin.
  - destruct (col !! i) as [v|]; [|done]. cbn.
    unfold isMuchSmallerThan. by rewrite Hlaw.
  - symmetry. apply lookup_ge_None_2.
    apply lookup_lt_Some in Hcol. lia.
Qed.

Lemma sp_col_sparseView (m : MatrixXd (D:=D)) j col :
  abs_above_neg_one_law D ->
  m_cols m !! j = Some col -> length col = m_rows m ->
  sp_col (sparseView m (of_Z 1) (of_Z (-1))) j = Some <$> col.
Proof.
  intros Hlaw Hcol Hlen. unfold sp_col. apply list_eq. intros i.
  rewrite !list_lookup_fmap.
  change (sp_rows (sparseView m (of_Z 1) (of_Z (-1)))) with (m_rows m).
  destruct (decide (i < m_rows m)) as [Hi|Hi].
  - rewrite lookup_seq_lt by done. change (0 + i) with i.
    cbn [fmap option_fmap option_map].
    rewrite (sparseView_keeps_all m i j col) by done.
    destruct (col !! i) eqn:Hi'; [done|].
    apply lookup_ge_None_1 in Hi'. lia.
  - rewrite lookup_seq_ge by lia. by rewrite (lookup_ge_None_2 col) by lia.
Qed.

Lemma sp_pattern_sparseView (m : MatrixXd (D:=D)) :
  abs_above_neg_one_law D ->
  (forall j col, m_cols m !! j = Some col -> length col = m_rows m) ->
  sp_pattern (sparseView m (of_Z 1) (of_Z (-1)))
  = list_to_set (all_indices (m_rows m) (length (m_cols m))).
Proof.
  intros Hlaw Hwf. apply set_eq. intros [i j]. unfold sp_pattern.
  rewrite elem_of_dom, elem_of_list_to_set, all_indices_elem.
  split.
  - intros [v Hv]. rewrite sparseView_lookup in Hv.
    case_decide; [done|discriminate].
  - intros [Hi Hj].
    destruct (lookup_lt_is_Some_2 (m_cols m) j Hj) as [col Hcol].
    rewrite (sparseView_keeps_all m i j col Hlaw Hcol (Hwf _ _ Hcol)).
    apply lookup_lt_is_Some_2. rewrite (Hwf _ _ Hcol). done.
Qed.

(** *** Independence from the stored durations *)

Lemma oblivious_ret {A} (a : A) : oblivious (D:=D) (ret a).
Proof. split; [by intros this a' this' [= _ <-]|done]. Qed.

Lemma oblivious_lift {A} (r : result A) : oblivious (D:=D) (lift r).
Proof.
  split.
  - intros this a this'. unfold lift. destruct r; cbn; [|done]. by intros [= _ <-].
  - intros a b _. unfold lift. by destruct r.
Qed.

Lemma oblivious_gets {A} (f : ContactSchedule D -> A) :
  (forall a b, alike a b -> f a = f b) -> oblivious (gets f).
Proof.
  intros Hf. split; [by intros this a this' [= _ <-]|].
  intros a b Hab. cbn. by rewrite (Hf a b Hab).
Qed.

Lemma oblivious_bind {A B} (m : M D A) (k : A -> M D B) :
  oblivious m -> (forall a, oblivious (k a)) -> oblivious (bind m k).
Proof.
  intros [Hconst Hm] Hk. split.
  - intros this b this'' Hrun.
    apply bind_inv in Hrun as (a & this' & Hm' & Hk').
    apply Hconst in Hm' as ->. by apply (Hk a) in Hk'.
  - intros a b Hab. specialize (Hm a b Hab). unfold bind.
    destruct (m a) as [[v a']|e] eqn:Ha, (m b) as [[w b']|e'] eqn:Hb;
      cbn in Hm; try done.
    + injection Hm as ->.
      apply Hconst in Ha as ->. apply Hconst in Hb as ->.
      by apply (Hk w).
    + by injection Hm as ->.
Qed.

Lemma oblivious_for_upto {A} n (body : nat -> A -> M D A) :
  (forall i a, oblivious (body i a)) -> forall acc, oblivious (for_upto n body acc).
Proof.
  intros Hbody acc. induction n as [|n IH]; cbn [for_upto].
  - apply oblivious_ret.
  - apply oblivious_bind; [exact IH | intros a; apply Hbody].
Qed.

Lemma oblivious_GetJacobianOfPos cp (dx xd : list D) :
  oblivious (GetJacobianOfPos cp dx xd).
Proof.
  unfold GetJacobianOfPos, GetRows.
  apply oblivious_bind; [apply oblivious_gets; by intros a b [? _]|]. intros rows.
  apply oblivious_bind; [apply oblivious_lift|]. intros jac.
  apply oblivious_bind.
  { apply oblivious_gets. intros a b [_ Hl]. by rewrite Hl. }
  intros size.
  apply oblivious_bind.
  { destruct (negb _); [apply oblivious_lift | apply oblivious_ret]. }
  intros jac1.
  apply oblivious_bind; [|intros jac2; apply oblivious_ret].
  apply oblivious_for_upto. intros phase jac2.
  apply oblivious_bind; [apply oblivious_lift|]. intros jac3.
  destruct (_ =? _)%Z; [apply oblivious_lift | apply oblivious_ret].
Qed.

Lemma reachable_alike NDEBUG ee1 ee2 (timings1 timings2 : list D) lo1 hi1 lo2 hi2
      (this1 this2 : ContactSchedule D) :
  length timings1 = length timings2 ->
  reachable NDEBUG (ContactSchedule_new ee1 timings1 lo1 hi1) this1 ->
  reachable NDEBUG (ContactSchedule_new ee2 timings2 lo2 hi2) this2 ->
  alike this1 this2.
Proof.
  intros Hlen H1 H2.
  apply reachable_same_frame in H1 as (Hr1 & _ & _ & _ & Hl1).
  apply reachable_same_frame in H2 as (Hr2 & _ & _ & _ & Hl2).
  cbn in *. split; [|congruence]. rewrite Hr1, Hr2. by rewrite Hlen.
Qed.

(** *** Results on [GetJacobianOfPos] *)

(** [GetJacobianOfPos] on a schedule built from a valid timing list, for a
    phase index of the schedule and vectors of one size. *)
Lemma GetJacobianOfPos_reachable NDEBUG ee (timings : list D) lo hi this cp (dx xd : list D) :
  valid_timings timings ->
  reachable NDEBUG (ContactSchedule_new ee timings lo hi) this ->
  (0 <= cp < Z.of_nat (length timings))%Z ->
  length dx = length xd ->
  (Z.of_nat (length xd) <= CInt.INT_MAX)%Z ->
  GetJacobianOfPos cp dx xd this
  = Ok (sparseView
          (mkMatrixXd (length xd)
             (jacobian_columns (length timings) (Z.to_nat cp) dx xd))
          (of_Z 1) (of_Z (-1)),
        this).
Proof.
  intros Hv Hreach Hcp Hdx Hxd.
  pose proof (reachable_rows_match _ _ _ _ _ _ Hv Hreach) as Hrm.
  pose proof (reachable_same_frame _ _ _ Hreach) as (_ & _ & _ & _ & Hlen).
  cbn [durations_ ContactSchedule_new] in Hlen.
  rewrite <- Hlen. apply GetJacobianOfPos_eq; [done|lia|done..].
Qed.

Lemma vec_scale_neg_one (xd : list D) :
  neg_one_mul_law D -> vec_scale (of_Z (-1)) xd = vec_neg xd.
Proof.
  intros Hlaw. unfold vec_scale, vec_neg. apply list_fmap_ext. intros _ v _. apply Hlaw.
Qed.

(** C2: for a phase index [current_phase] of the schedule and a phase [p]
    before it, column [p] of the returned Jacobian is stored in full and is
    -xd - dx_dT when [current_phase] is the last phase, and -xd
    otherwise. *)
Theorem GetJacobianOfPos_earlier_columns
        NDEBUG ee (timings : list D) lo hi this cp (dx_dT xd : list D) p :
  neg_one_mul_law D ->
  abs_above_neg_one_law D ->
  valid_timings timings ->
  reachable NDEBUG (ContactSchedule_new ee timings lo hi) this ->
  (0 <= cp < Z.of_nat (length timings))%Z ->
  length dx_dT = length xd ->
  (Z.of_nat (length xd) <= CInt.INT_MAX)%Z ->
  (Z.of_nat p < cp)%Z ->
  exists J : SparseMatrix,
    GetJacobianOfPos cp dx_dT xd this = Ok (J, this)
    /\ sp_col J p
       = Some <$> (if decide (cp = Z.of_nat (length timings) - 1)%Z
                   then vec_sub (vec_neg xd) dx_dT
                   else vec_neg xd).
Proof.
  intros Hneg Habs Hv Hreach Hcp Hdx Hxd Hp.
  eexists. split; [by eapply GetJacobianOfPos_reachable|].
  erewrite sp_col_sparseView; [|done| |].
  2:{ cbn [m_cols]. apply jacobian_columns_earlier. lia. }
  2:{ cbn [m_rows]. by apply earlier_column_length. }
  f_equal. unfold earlier_column. rewrite (vec_scale_neg_one xd Hneg).
  case_decide; [rewrite bool_decide_eq_true_2 by lia
               |rewrite bool_decide_eq_false_2 by lia]; done.
Qed.

(** C3: for a phase index [current_phase] of the schedule, the returned
    Jacobian has [GetRows()] columns; when [current_phase] is not the last
    phase its column [current_phase] is stored in full and is dx_dT; when it
    is the last phase, [current_phase] is the number of columns, so that no
    entry of that column exists. *)
Theorem GetJacobianOfPos_current_column
        NDEBUG ee (timings : list D) lo hi this cp (dx_dT xd : list D) :
  abs_above_neg_one_law D ->
  valid_timings timings ->
  reachable NDEBUG (ContactSchedule_new ee timings lo hi) this ->
  (0 <= cp < Z.of_nat (length timings))%Z ->
  length dx_dT = length xd ->
  (Z.of_nat (length xd) <= CInt.INT_MAX)%Z ->
  exists J : SparseMatrix,
    GetJacobianOfPos cp dx_dT xd this = Ok (J, this)
    /\ GetRows this = Ok (Z.of_nat (sp_cols J), this)
    /\ (cp <> (Z.of_nat (length timings) - 1)%Z ->
        sp_col J (Z.to_nat cp) = Some <$> dx_dT)
    /\ (cp = (Z.of_nat (length timings) - 1)%Z ->
        sp_cols J = Z.to_nat cp
        /\ forall i, sp_coeffs J !! (i, Z.to_nat cp) = None).
Proof.
  intros Habs Hv Hreach Hcp Hdx Hxd.
  pose proof (reachable_rows_match _ _ _ _ _ _ Hv Hreach) as (_ & Hrows & _).
  pose proof (reachable_same_frame _ _ _ Hreach) as (_ & _ & _ & _ & Hlen).
  cbn [durations_ ContactSchedule_new] in Hlen.
  eexists. split; [by eapply GetJacobianOfPos_reachable|].
  cbn [sp_cols sparseView m_cols].
  rewrite jacobian_columns_length by lia.
  split; [|split].
  - unfold GetRows, gets. rewrite Hrows, Hlen. do 2 f_equal. lia.
  - intros Hnl. apply sp_col_sparseView; [done| |done].
    cbn [m_cols]. apply jacobian_columns_current. lia.
  - intros Hl. split; [lia|]. intros i. rewrite sparseView_lookup.
    cbn [m_cols m_rows]. rewrite jacobian_columns_length by lia.
    rewrite decide_False; [done|lia].
Qed.

(** C6: two calls with one [current_phase], on schedules with the same
    number of phases and with vectors of the same sizes, return Jacobians
    with the same set of stored entries, namely every entry of the n_dim by
    [GetRows()] matrix, whatever the values are. *)
Theorem GetJacobianOfPos_pattern_stable
        NDEBUG ee1 ee2 (timings1 timings2 : list D) lo1 hi1 lo2 hi2 this1 this2
        cp (dx1 xd1 dx2 xd2 : list D) :
  abs_above_neg_one_law D ->
  valid_timings timings1 ->
  length timings2 = length timings1 ->
  reachable NDEBUG (ContactSchedule_new ee1 timings1 lo1 hi1) this1 ->
  reachable NDEBUG (ContactSchedule_new ee2 timings2 lo2 hi2) this2 ->
  (0 <= cp < Z.of_nat (length timings1))%Z ->
  length dx1 = length xd1 ->
  length dx2 = length dx1 ->
  length xd2 = length xd1 ->
  (Z.of_nat (length xd1) <= CInt.INT_MAX)%Z ->
  exists J1 J2 : SparseMatrix,
    GetJacobianOfPos cp dx1 xd1 this1 = Ok (J1, this1)
    /\ GetJacobianOfPos cp dx2 xd2 this2 = Ok (J2, this2)
    /\ sp_pattern J1 = sp_pattern J2
    /\ sp_pattern J1
       = list_to_set (all_indices (length xd1) (pred (length timings1))).
Proof.
  intros Habs Hv1 Hlen Hr1 Hr2 Hcp Hd1 Hd2 Hx2 Hmax.
  assert (Hv2 : valid_timings timings2).
  { destruct Hv1 as [Hne Hb]. split; [|by rewrite Hlen].
    intros ->. destruct timings1; done. }
  eexists _, _.
  split; [by eapply (GetJacobianOfPos_reachable _ _ timings1)|].
  split.
  { eapply (GetJacobianOfPos_reachable _ _ timings2); [done..|lia|congruence|lia]. }
  rewrite !sp_pattern_sparseView; try done.
  - cbn [m_cols m_rows]. rewrite !jacobian_columns_length by lia.
    by rewrite Hlen, Hx2.
  - cbn [m_cols m_rows]. intros j col. apply jacobian_columns_wf. congruence.
  - cbn [m_cols m_rows]. intros j col. by apply jacobian_columns_wf.
Qed.

(** C9: on two schedules with the same number of phases,
    [GetJacobianOfPos] with the same arguments has the same outcome,
    whatever the durations stored in the two are; for a phase index of the
    schedules and vectors of one size the outcome is one and the same
    matrix. *)
Theorem GetJacobianOfPos_ignores_durations
        NDEBUG ee1 ee2 (timings1 timings2 : list D) lo1 hi1 lo2 hi2 this1 this2
        cp (dx_dT xd : list D) :
  length timings1 = length timings2 ->
  reachable NDEBUG (ContactSchedule_new ee1 timings1 lo1 hi1) this1 ->
  reachable NDEBUG (ContactSchedule_new ee2 timings2 lo2 hi2) this2 ->
  result_map fst (GetJacobianOfPos cp dx_dT xd this1)
  = result_map fst (GetJacobianOfPos cp dx_dT xd this2)
  /\ (valid_timings timings1 ->
      (0 <= cp < Z.of_nat (length timings1))%Z ->
      length dx_dT = length xd ->
      (Z.of_nat (length xd) <= CInt.INT_MAX)%Z ->
      exists J : SparseMatrix,
        GetJacobianOfPos cp dx_dT xd this1 = Ok (J, this1)
        /\ GetJacobianOfPos cp dx_dT xd this2 = Ok (J, this2)).
Proof.
  intros Hlen Hr1 Hr2.
  pose proof (reachable_alike _ _ _ _ _ _ _ _ _ _ _ Hlen Hr1 Hr2) as Hab.
  pose proof (oblivious_GetJacobianOfPos cp dx_dT xd) as [Hconst Hsame].
  specialize (Hsame _ _ Hab). split; [exact Hsame|].
  intros Hv Hcp Hdx Hmax.
  pose proof (GetJacobianOfPos_reachable _ _ _ _ _ _ cp dx_dT xd Hv Hr1 Hcp Hdx Hmax) as H1.
  rewrite H1 in Hsame. eexists. split; [exact H1|].
  destruct (GetJacobianOfPos cp dx_dT xd this2) as [[J2 s2]|e] eqn:H2; [|done].
  apply Hconst in H2 as Hs. subst s2. cbn in Hsame. by injection Hsame as <-.
Qed.

End ScheduleFacts.

(** ** Facts about the containers *)

Section EndeffectorsFacts.

Implicit Types (this : EndeffectorsBool) (l : list bool).

Lemma result_bind_Ok {A B} (k : A -> result B) (a : A) : (Ok a ≫= k) = k a.
Proof. reflexivity. Qed.

Lemma At_lookup {T} (this : Endeffectors T) i v :
  ee_ this !! i = Some v -> At this (EE i) = Ok v.
Proof. intros Hl. unfold At. simpl. by rewrite Hl. Qed.

(** The loop of [Invert] over the identifiers [i .. i+k-1] flips these
    positions of the copy and leaves the others alone. *)
Lemma Invert_loop this k : forall i ret,
  i + k <= length (ee_ this) ->
  length (ee_ ret) = length (ee_ this) ->
  exists ret',
    for_each_local (EE <$> seq i k)
      (fun ee ret => v ← At this ee; At_assign ret ee (negb v)) ret = Ok ret'
    /\ length (ee_ ret') = length (ee_ this)
    /\ forall j, ee_ ret' !! j =
                 if decide (i <= j < i + k) then negb <$> ee_ this !! j
                 else ee_ ret !! j.
Proof.
  induction k as [|k IH]; intros i ret Hik Hlen.
  - exists ret. simpl. repeat split; [done|]. intros j. case_decide; [lia|done].
  - destruct (lookup_lt_is_Some_2 (ee_ this) i) as [v Hv]; [lia|].
    cbn [seq fmap list_fmap for_each_local].
    rewrite (At_lookup _ _ _ Hv), result_bind_Ok.
    unfold At_assign. cbn [ee_index].
    rewrite decide_True by lia. rewrite result_bind_Ok.
    destruct (IH (S i) (mkEndeffectors (<[i:=negb v]> (ee_ ret))))
      as (ret' & Hrun & Hlen' & Hget).
    { lia. }
    { cbn. by rewrite length_insert. }
    exists ret'. split; [exact Hrun|]. split; [exact Hlen'|].
    intros j. rewrite Hget. cbn [ee_].
    destruct (decide (j = i)) as [->|Hne].
    + rewrite decide_False by lia. rewrite decide_True by lia.
      rewrite list_lookup_insert_eq by lia. by rewrite Hv.
    + rewrite list_lookup_insert_ne by done.
      repeat case_decide; done || lia.
Qed.

Lemma Invert_eq this : Invert this = Ok (mkEndeffectors (negb <$> ee_ this)).
Proof.
  unfold Invert, EndeffectorsBool_new, Endeffectors_new, GetCount, GetEEsOrdered.
  destruct (Z.ltb_spec (Z.of_nat (length (ee_ this))) 0) as [Hneg|_]; [lia|].
  rewrite result_bind_Ok, Nat2Z.id.
  destruct (Invert_loop this (length (ee_ this)) 0
              (mkEndeffectors (replicate (length (ee_ this)) false)))
    as (ret' & Hrun & Hlen & Hget).
  { lia. }
  { cbn. by rewrite length_replicate. }
  rewrite Hrun. f_equal. destruct ret' as [r]. f_equal. cbn in *.
  apply list_eq. intros j. rewrite Hget, list_lookup_fmap.
  case_decide as Hj; [done|].
  rewrite (lookup_ge_None_2 (ee_ this)) by lia.
  cbn. apply lookup_replicate_None. lia.
Qed.

(** number of [true] flags in a list *)
Lemma GetTrueCount_loop this k : forall i count,
  i + k <= length (ee_ this) ->
  for_each_local (EE <$> seq i k)
    (fun ee count => v ← At this ee; Ok (if v : bool then (count + 1)%Z else count)) count
  = Ok (count + Z.of_nat (length (filter (fun b => b = true) (take k (drop i (ee_ this))))))%Z.
Proof.
  induction k as [|k IH]; intros i count Hik.
  - cbn [seq fmap list_fmap for_each_local]. rewrite take_0, filter_nil.
    cbn [length]. f_equal. lia.
  - destruct (lookup_lt_is_Some_2 (ee_ this) i) as [v Hv]; [lia|].
    cbn [seq fmap list_fmap for_each_local].
    rewrite (At_lookup _ _ _ Hv). rewrite !result_bind_Ok.
    rewrite IH by lia. f_equal.
    rewrite (drop_S _ _ _ Hv). cbn [take].
    rewrite filter_cons. destruct v; case_decide; try done; cbn [length]; lia.
Qed.

Lemma GetTrueCount_eq this :
  GetTrueCount this = Ok (Z.of_nat (length (filter (fun b => b = true) (ee_ this)))).
Proof.
  unfold GetTrueCount, GetEEsOrdered.
  rewrite GetTrueCount_loop by lia.
  cbn [drop]. by rewrite firstn_all.
Qed.

Lemma true_count_negb l :
  length (filter (fun b => b = true) l) + length (filter (fun b => b = true) (negb <$> l))
  = length l.
Proof.
  induction l as [|b l IH]; [done|].
  rewrite fmap_cons, !filter_cons.
  destruct b; cbn [negb]; repeat case_decide; try done; cbn [length]; lia.
Qed.

(** C10: [Invert] returns, inverting twice gives the container back,
    [Invert] keeps the number of elements, and the flags set in a container
    and in its inverse add up to the number of elements. *)
Theorem Invert_involution_count (b : EndeffectorsBool) :
  exists b' : EndeffectorsBool,
    Invert b = Ok b'
    /\ Invert b' = Ok b
    /\ GetCount b' = GetCount b
    /\ exists c c' : Z,
         GetTrueCount b = Ok c /\ GetTrueCount b' = Ok c'
         /\ (c + c' = GetCount b)%Z.
Proof.
  exists (mkEndeffectors (negb <$> ee_ b)).
  split; [apply Invert_eq|]. split.
  { rewrite Invert_eq. cbn [ee_]. f_equal. destruct b as [l]. f_equal. cbn.
    rewrite <- list_fmap_compose. rewrite <- (list_fmap_id l) at 2.
    apply list_fmap_ext. intros _ x _. apply negb_involutive. }
  split.
  { unfold GetCount. cbn [ee_]. by rewrite length_fmap. }
  eexists _, _. split; [apply GetTrueCount_eq|]. split; [apply GetTrueCount_eq|].
  cbn [ee_]. unfold GetCount. rewrite <- Nat2Z.inj_add. f_equal. apply true_count_negb.
Qed.
End EndeffectorsFacts.

(** ** Further facts about the contact schedule *)

Section ScheduleMore.
Context {D : Type} `{Scalar D}.
Implicit Types (this : ContactSchedule D) (x y : list D) (v : D).

Lemma to_size_t_negative z :
  (- 2 ^ 64 <= z < 0)%Z -> CInt.to_size_t z = (z + 2 ^ 64)%Z.
Proof.
  intros Hz. unfold CInt.to_size_t. symmetry.
  apply (Z.mod_unique z (2 ^ 64) (- 1)); lia.
Qed.

Lemma bind_Fail {A B} (m : M D A) (k : A -> M D B) this e :
  m this = Fail e -> bind m k this = Fail e.
Proof. intros Hm. unfold bind. by rewrite Hm. Qed.

(** a loop whose first round fails, fails *)
Lemma for_upto_first_fails {A} n (body : nat -> A -> M D A) acc this e :
  0 < n -> body 0 acc this = Fail e -> for_upto n body acc this = Fail e.
Proof.
  intros Hn Hbody. induction n as [|n IH]; [lia|]. cbn [for_upto].
  destruct n as [|n].
  - by erewrite bind_Ok by reflexivity.
  - apply bind_Fail, IH. lia.
Qed.

(** *** [GetBounds] *)

Lemma GetBounds_loop (b : Bounds D) n : forall acc this,
  for_upto n (fun _ bounds => ret (bounds ++ [b])) acc this
  = Ok (acc ++ replicate n b, this).
Proof.
  induction n as [|n IH]; intros acc this; cbn [for_upto].
  - unfold ret. cbn [replicate]. by rewrite app_nil_r.
  - erewrite bind_Ok by apply IH. unfold ret.
    by rewrite replicate_S_end, app_assoc.
Qed.

Lemma GetBounds_eq this :
  GetBounds this
  = Ok (replicate (Z.to_nat (num_rows_ this)) (phase_duration_bounds_ this), this).
Proof.
  unfold GetBounds, GetRows.
  erewrite bind_Ok by reflexivity. erewrite bind_Ok by reflexivity.
  apply GetBounds_loop.
Qed.

(** X1: [GetBounds()] returns, for as many variables as [GetValues()] has
    coefficients, the pair of bounds that the constructor was given, and
    leaves the object alone. *)
Theorem GetBounds_spec NDEBUG ee (timings : list D) lo hi this :
  valid_timings timings ->
  reachable NDEBUG (ContactSchedule_new ee timings lo hi) this ->
  exists vals : list D,
    GetValues this = Ok (vals, this)
    /\ length vals = pred (length timings)
    /\ GetBounds this = Ok (replicate (length vals) (mkBounds lo hi), this).
Proof.
  intros Hv Hreach.
  pose proof (reachable_rows_match _ _ _ _ _ _ Hv Hreach) as Hrm.
  pose proof (reachable_same_frame _ _ _ Hreach) as (_ & _ & _ & Hb & Hlen).
  cbn [durations_ phase_duration_bounds_ ContactSchedule_new] in Hb, Hlen.
  destruct (rows_match_snoc this Hrm) as (l & Hd & _ & Hr).
  exists (independent_durations this).
  assert (Hil : length (independent_durations this) = pred (length timings)).
  { unfold independent_durations. rewrite length_take_le by lia. by rewrite Hlen. }
  split; [by apply GetValues_eq|]. split; [exact Hil|].
  rewrite GetBounds_eq, Hb, Hr, Hil. by rewrite Hlen.
Qed.

(** *** What a returning [SetVariables] has done *)

Lemma SetVariables_loop_inv x n : forall this this1,
  for_upto n (fun i _ => bind (lift (vec_coeff x i))
                              (fun v => durations_at_assign i v)) tt this
  = Ok (tt, this1) ->
  exists d, this1 = set_durations d this.
Proof.
  induction n as [|n IH]; intros this this1; cbn [for_upto].
  - intros [= <-]. exists (durations_ this). by rewrite set_durations_same.
  - intros Hrun. apply bind_inv in Hrun as ([] & this0 & Hloop & Hbody).
    apply IH in Hloop as [d0 ->].
    apply bind_inv in Hbody as (v & this0' & Hv & Hassign).
    unfold lift in Hv. destruct (vec_coeff x n); [|done].
    cbn in Hv. injection Hv as <- <-.
    unfold durations_at_assign in Hassign. case_decide; [|done].
    injection Hassign as <-. eexists. apply set_durations_twice.
Qed.

(** A call of [SetVariables] that returns has changed the durations only,
    has called the observers registered at that time, in their order, and,
    when assertions are compiled in, has left a last duration above zero. *)
Lemma SetVariables_inv NDEBUG x this calls this' :
  SetVariables NDEBUG x this = Ok (calls, this') ->
  exists d,
    this' = set_durations d this
    /\ calls = observers_ this
    /\ (NDEBUG = false -> exists l, last d = Some l /\ sgtb l (of_Z 0) = true).
Proof.
  unfold SetVariables, GetRows. intros Hrun.
  apply bind_inv in Hrun as (rows & s0 & Hrows & Hrun). injection Hrows as <- <-.
  apply bind_inv in Hrun as ([] & s1 & Hloop & Hrun).
  apply SetVariables_loop_inv in Hloop as [d1 ->].
  apply bind_inv in Hrun as (t & s2 & Ht & Hrun). injection Ht as <- <-.
  apply bind_inv in Hrun as ([] & s3 & Hback & Hrun).
  unfold durations_back_assign in Hback.
  destruct (durations_ (set_durations d1 this)) as [|d0 ds] eqn:Hd; [done|].
  injection Hback as <-. rewrite set_durations_twice in Hrun.
  set (d := <[_ := _]> _) in Hrun.
  apply bind_inv in Hrun as ([] & s4 & Hassert & Hrun).
  rewrite UpdateObservers_eq in Hrun. injection Hrun as <- <-.
  unfold c_assert in Hassert. destruct NDEBUG.
  - injection Hassert as <-. exists d. by repeat split.
  - apply bind_inv in Hassert as (b & s5 & Hcond & Hb).
    apply bind_inv in Hcond as (l & s6 & Hl & Hret).
    unfold durations_back in Hl. cbn [durations_ set_durations] in Hl.
    destruct (last d) as [l'|] eqn:Hlast; [|done]. injection Hl as <- <-.
    injection Hret as <- <-.
    destruct (sgtb l' (of_Z 0)) eqn:Hgt; [|done]. injection Hb as <-.
    exists d. repeat split. intros _. by exists l'.
Qed.

(** *** Observers *)

Lemma AddObserver_each (os : list ObserverPtr) : forall this,
  for_each os (fun o _ => AddObserver o) tt this
  = Ok (tt, set_observers (observers_ this ++ os) this).
Proof.
  induction os as [|o os IH]; intros this; cbn [for_each].
  - unfold ret. rewrite app_nil_r. by destruct this.
  - erewrite bind_Ok by reflexivity. rewrite IH. cbn. by rewrite <- app_assoc.
Qed.

(** X2: Observers are notified in the order of their registration: after
    [AddObserver] for each of [os] in turn, a call of [SetVariables] that
    returns has called [UpdatePhaseDurations] on the observers the object
    had before followed by [os], each once, and the list of observers is
    still that one. *)
Theorem observers_notified_in_registration_order
        NDEBUG this (os : list ObserverPtr) x this1 calls this2 :
  for_each os (fun o _ => AddObserver o) tt this = Ok (tt, this1) ->
  SetVariables NDEBUG x this1 = Ok (calls, this2) ->
  calls = observers_ this ++ os
  /\ observers_ this2 = observers_ this ++ os
  /\ durations_ this1 = durations_ this.
Proof.
  rewrite AddObserver_each. intros [= <-] Hset.
  apply SetVariables_inv in Hset as (d & -> & -> & _). done.
Qed.

(** *** [SetVariables] overwrites *)

(** X3: The state that [SetVariables(y)] leaves does not depend on the
    durations stored before: after a call [SetVariables(x)] that returned,
    [SetVariables(y)] has the outcome it would have had without that
    call. *)
Theorem SetVariables_overwrites NDEBUG ee (timings : list D) lo hi this x y calls this1 :
  valid_timings timings ->
  reachable NDEBUG (ContactSchedule_new ee timings lo hi) this ->
  (num_rows_ this <= Z.of_nat (length y))%Z ->
  SetVariables NDEBUG x this = Ok (calls, this1) ->
  SetVariables NDEBUG y this1 = SetVariables NDEBUG y this.
Proof.
  intros Hv Hreach Hy Hx.
  pose proof (reachable_rows_match _ _ _ _ _ _ Hv Hreach) as Hrm.
  assert (Hrm1 : rows_match this1).
  { eapply reachable_rows_match; [done|]. by eapply reach_SetVariables. }
  apply SetVariables_inv in Hx as (d & -> & _ & _).
  rewrite (SetVariables_eq NDEBUG y _ Hrm1) by done.
  rewrite (SetVariables_eq NDEBUG y _ Hrm) by done.
  reflexivity.
Qed.

(** *** The last duration stays positive *)

(** X4: With assertions compiled in, the last duration is above zero in every
    state that a schedule reaches once [SetVariables] has returned; before
    that the durations are those given to the constructor. *)
Theorem last_duration_positive ee (timings : list D) lo hi this :
  reachable false (ContactSchedule_new ee timings lo hi) this ->
  durations_ this = timings
  \/ exists l, last (durations_ this) = Some l /\ sgtb l (of_Z 0) = true.
Proof.
  induction 1 as [|this x calls this' _ IH Hrun|this o this' _ IH Hrun].
  - by left.
  - right. apply SetVariables_inv in Hrun as (d & -> & _ & Hpos).
    cbn [durations_ set_durations]. by apply Hpos.
  - injection Hrun as <-. exact IH.
Qed.

(** *** Vectors of the wrong size *)

Lemma SetVariables_loop_short x n : forall this,
  length x < n -> length x <= length (durations_ this) ->
  for_upto n (fun i _ => bind (lift (vec_coeff x i))
                              (fun v => durations_at_assign i v)) tt this
  = Fail EigenPrecondition.
Proof.
  induction n as [|n IH]; intros this Hx Hd; [lia|]. cbn [for_upto].
  destruct (decide (length x = n)) as [<-|Hne].
  - erewrite bind_Ok by (by apply SetVariables_loop).
    unfold bind, lift, vec_coeff. by rewrite lookup_ge_None_2.
  - apply bind_Fail, IH; lia.
Qed.

(** X5: [SetVariables(x)] with fewer coefficients than [GetRows()] reads past
    the end of [x]: the call does not return. *)
Theorem SetVariables_short_vector NDEBUG ee (timings : list D) lo hi this x :
  valid_timings timings ->
  reachable NDEBUG (ContactSchedule_new ee timings lo hi) this ->
  (Z.of_nat (length x) < num_rows_ this)%Z ->
  SetVariables NDEBUG x this = Fail EigenPrecondition.
Proof.
  intros Hv Hreach Hx.
  pose proof (reachable_rows_match _ _ _ _ _ _ Hv Hreach) as (_ & Hrows & _).
  unfold SetVariables, GetRows. erewrite bind_Ok by reflexivity.
  apply bind_Fail, SetVariables_loop_short; lia.
Qed.

(** X6: [SetVariables(x)] with more coefficients than [GetRows()] stores the
    first [GetRows()] of them, but takes the sum of all of [x] off the total
    time for the last duration. *)
Theorem SetVariables_long_vector NDEBUG ee (timings : list D) lo hi this x :
  valid_timings timings ->
  reachable NDEBUG (ContactSchedule_new ee timings lo hi) this ->
  (num_rows_ this < Z.of_nat (length x))%Z ->
  exists (this' : ContactSchedule D) (last' : D),
    SetVariables NDEBUG x this
      = (if NDEBUG || sgtb last' (of_Z 0)
         then Ok (observers_ this, this') else Fail AssertionFailed)
    /\ last' = ssub (t_total_ this) (vec_sum x)
    /\ durations_ this' = take (pred (length timings)) x ++ [last'].
Proof.
  intros Hv Hreach Hx.
  pose proof (reachable_rows_match _ _ _ _ _ _ Hv Hreach) as Hrm.
  pose proof (reachable_same_frame _ _ _ Hreach) as (_ & _ & _ & _ & Hlen).
  cbn [durations_ ContactSchedule_new] in Hlen.
  destruct (rows_match_snoc this Hrm) as (l & _ & _ & Hr).
  eexists _, _. split; [apply (SetVariables_eq NDEBUG x this Hrm); lia|].
  split; [done|]. cbn [durations_ set_durations]. by rewrite Hr, Hlen.
Qed.

(** *** More on [GetJacobianOfPos] *)

Lemma jacobian_columns_later n cp (dx xd : list D) j :
  cp < j -> j < pred n ->
  jacobian_columns n cp dx xd !! j = Some (replicate (length xd) (of_Z 0)).
Proof.
  intros Hj Hn. unfold jacobian_columns.
  rewrite bool_decide_eq_false_2 by lia.
  rewrite lookup_app_r by (rewrite length_replicate; lia).
  rewrite length_replicate.
  replace (j - cp) with (S (j - cp - 1)) by lia. cbn [lookup list_lookup].
  apply lookup_replicate_2. lia.
Qed.

(** X7: The columns of the phases after [current_phase] are zero, and stored in
    full; the Jacobian has as many rows as [xd] has coefficients. *)
Theorem GetJacobianOfPos_later_columns
        NDEBUG ee (timings : list D) lo hi this cp (dx_dT xd : list D) j :
  abs_above_neg_one_law D ->
  valid_timings timings ->
  reachable NDEBUG (ContactSchedule_new ee timings lo hi) this ->
  (0 <= cp)%Z ->
  length dx_dT = length xd ->
  (Z.of_nat (length xd) <= CInt.INT_MAX)%Z ->
  (cp < Z.of_nat j < Z.of_nat (length timings) - 1)%Z ->
  exists J : SparseMatrix,
    GetJacobianOfPos cp dx_dT xd this = Ok (J, this)
    /\ sp_rows J = length xd
    /\ sp_col J j = Some <$> replicate (length xd) (of_Z 0).
Proof.
  intros Habs Hv Hreach Hcp Hdx Hxd Hj.
  eexists. split; [eapply GetJacobianOfPos_reachable; [done..|lia|done|done]|].
  split; [done|].
  apply sp_col_sparseView; [done| |].
  - cbn [m_cols]. apply jacobian_columns_later; lia.
  - cbn [m_rows]. apply length_replicate.
Qed.

(** X8: A [current_phase] that is not a phase index of the schedule makes
    [GetJacobianOfPos] address a column that the matrix does not have: the
    call does not return. *)
Theorem GetJacobianOfPos_phase_out_of_range
        NDEBUG ee (timings : list D) lo hi this cp (dx_dT xd : list D) :
  valid_timings timings ->
  reachable NDEBUG (ContactSchedule_new ee timings lo hi) this ->
  (- 2147483648 <= cp <= CInt.INT_MAX)%Z ->
  (cp < 0 \/ Z.of_nat (length timings) <= cp)%Z ->
  GetJacobianOfPos cp dx_dT xd this = Fail EigenPrecondition.
Proof.
  intros Hv Hreach Hint Hcp.
  pose proof (reachable_rows_match _ _ _ _ _ _ Hv Hreach) as Hrm.
  pose proof (reachable_same_frame _ _ _ Hreach) as (_ & _ & _ & _ & Hlen).
  cbn [durations_ ContactSchedule_new] in Hlen.
  pose proof (rows_match_nonneg this Hrm) as Hnn.
  destruct Hrm as (_ & Hrows & Hmax). rewrite Hlen in Hrows.
  unfold CInt.INT_MAX in *.
  unfold GetJacobianOfPos, GetRows. erewrite bind_Ok by reflexivity.
  unfold MatrixXd_Zero.
  destruct (_ || _)%Z; [done|].
  erewrite bind_Ok by reflexivity. erewrite bind_Ok by reflexivity.
  rewrite Hlen.
  assert (Hnl : (CInt.to_size_t cp =? CInt.to_size_t (Z.of_nat (length timings) - 1))%Z
                = false).
  { apply Z.eqb_neq. rewrite (to_size_t_small (_ - 1)) by lia.
    destruct (Z.neg_nonneg_cases cp) as [Hneg|Hpos].
    - rewrite to_size_t_negative by lia. lia.
    - rewrite to_size_t_small by lia. lia. }
  rewrite Hnl. cbn [negb].
  apply bind_Fail. unfold lift, mat_col_assign. cbn [m_cols m_rows].
  rewrite length_replicate. rewrite decide_False; [done|]. lia.
Qed.

(** X9: On a schedule of two or more phases, [dx_dT] and [xd] of different
    sizes make [GetJacobianOfPos] assign a vector to a column of another
    size: the call does not return. *)
Theorem GetJacobianOfPos_size_mismatch
        NDEBUG ee (timings : list D) lo hi this cp (dx_dT xd : list D) :
  valid_timings timings ->
  reachable NDEBUG (ContactSchedule_new ee timings lo hi) this ->
  (0 <= cp < Z.of_nat (length timings))%Z ->
  1 < length timings ->
  (Z.of_nat (length xd) <= CInt.INT_MAX)%Z ->
  length dx_dT <> length xd ->
  GetJacobianOfPos cp dx_dT xd this = Fail EigenPrecondition.
Proof.
  intros Hv Hreach Hcp Hn Hxd Hne.
  pose proof (reachable_rows_match _ _ _ _ _ _ Hv Hreach) as Hrm.
  pose proof (reachable_same_frame _ _ _ Hreach) as (_ & _ & _ & _ & Hlen).
  cbn [durations_ ContactSchedule_new] in Hlen.
  pose proof (rows_match_nonneg this Hrm) as Hnn.
  destruct Hrm as (_ & Hrows & Hmax). rewrite Hlen in Hrows.
  unfold CInt.INT_MAX in *.
  unfold GetJacobianOfPos, GetRows, vec_rows.
  rewrite to_int_small by (unfold CInt.INT_MAX; lia).
  erewrite bind_Ok by reflexivity.
  unfold MatrixXd_Zero.
  destruct (Z.ltb_spec (Z.of_nat (length xd)) 0) as [?|_]; [lia|].
  destruct (Z.ltb_spec (num_rows_ this) 0) as [?|_]; [lia|].
  cbn [orb]. erewrite bind_Ok by reflexivity. erewrite bind_Ok by reflexivity.
  rewrite Hlen, !to_size_t_small by lia. rewrite Nat2Z.id.
  destruct (Z.eqb_spec cp (Z.of_nat (length timings) - 1)) as [Hlast|Hnot];
    cbn [negb].
  - erewrite bind_Ok by reflexivity. apply bind_Fail.
    apply for_upto_first_fails; [lia|].
    erewrite bind_Ok.
    2:{ unfold lift, mat_col_assign. cbn [m_cols m_rows].
        rewrite decide_True; [reflexivity|].
        rewrite length_replicate. unfold vec_scale. rewrite length_fmap.
        split; [lia|done]. }
    unfold lift, mat_col_sub. cbn [m_cols m_rows].
    change (Z.to_nat (Z.of_nat 0)) with 0.
    rewrite list_lookup_insert_eq by (rewrite length_replicate; lia).
    by rewrite decide_False by (intros [_ ?]; done).
  - apply bind_Fail. unfold lift, mat_col_assign. cbn [m_cols m_rows].
    by rewrite decide_False by (intros [_ ?]; done).
Qed.

(** *** The empty timing list *)

(** X10: The constructor takes an empty timing list as it is.  The row count is
    then -1: [GetBounds] returns no bounds, [GetValues] and
    [GetJacobianOfPos] ask Eigen for a negative size, and [SetVariables]
    takes [back()] of the empty vector, whatever the arguments are. *)
Theorem empty_timings_behaviour NDEBUG ee (lo hi : D) x cp (dx_dT xd : list D) :
  let this := ContactSchedule_new ee [] lo hi in
  GetRows this = Ok ((-1)%Z, this)
  /\ GetBounds this = Ok ([], this)
  /\ GetValues this = Fail EigenPrecondition
  /\ SetVariables NDEBUG x this = Fail Undefined
  /\ GetJacobianOfPos cp dx_dT xd this = Fail EigenPrecondition.
Proof.
  cbv zeta. split; [reflexivity|]. split; [reflexivity|]. split; [reflexivity|].
  split; [reflexivity|].
  unfold GetJacobianOfPos, GetRows. erewrite bind_Ok by reflexivity.
  apply bind_Fail. unfold lift, MatrixXd_Zero.
  change (num_rows_ (ContactSchedule_new ee [] lo hi)) with (-1)%Z.
  by rewrite orb_true_r.
Qed.

(** *** A schedule of one phase *)

(** X11: A schedule of one phase has no variables: [GetRows()] is 0,
    [GetValues()] and [GetBounds()] are empty, and the Jacobian has no
    column and no entry, whatever [dx_dT] is; its size is not looked at. *)
Theorem single_phase_schedule NDEBUG ee (t lo hi : D) this (dx_dT xd : list D) :
  reachable NDEBUG (ContactSchedule_new ee [t] lo hi) this ->
  (Z.of_nat (length xd) <= CInt.INT_MAX)%Z ->
  GetRows this = Ok (0%Z, this)
  /\ GetValues this = Ok ([], this)
  /\ GetBounds this = Ok ([], this)
  /\ exists J : SparseMatrix,
       GetJacobianOfPos 0%Z dx_dT xd this = Ok (J, this)
       /\ sp_rows J = length xd /\ sp_cols J = 0 /\ sp_coeffs J = ∅.
Proof.
  intros Hreach Hxd.
  assert (Hv : valid_timings [t]) by (split; [done|vm_compute; discriminate]).
  pose proof (reachable_rows_match _ _ _ _ _ _ Hv Hreach) as Hrm.
  pose proof (reachable_same_frame _ _ _ Hreach) as (_ & _ & _ & _ & Hlen).
  cbn [durations_ ContactSchedule_new length] in Hlen.
  assert (Hrows : num_rows_ this = 0%Z).
  { destruct Hrm as (_ & -> & _). rewrite Hlen. reflexivity. }
  split; [unfold GetRows, gets; by rewrite Hrows|].
  split.
  { rewrite (GetValues_eq this Hrm). unfold independent_durations.
    rewrite Hlen. by rewrite take_0. }
  split; [rewrite GetBounds_eq, Hrows; reflexivity|].
  unfold GetJacobianOfPos, GetRows, vec_rows.
  unfold CInt.INT_MAX in *.
  rewrite to_int_small by (unfold CInt.INT_MAX; lia).
  erewrite bind_Ok by reflexivity. rewrite Hrows.
  unfold MatrixXd_Zero.
  destruct (Z.ltb_spec (Z.of_nat (length xd)) 0) as [?|_]; [lia|].
  cbn [orb Z.ltb Z.compare]. erewrite bind_Ok by reflexivity.
  erewrite bind_Ok by reflexivity. rewrite Hlen.
  cbn [Z.to_nat for_upto replicate Z.of_nat negb].
  change (CInt.to_size_t 0 =? CInt.to_size_t (Z.pos (Pos.of_succ_nat 0) - 1))%Z
    with true.
  cbn [negb]. erewrite bind_Ok by reflexivity. erewrite bind_Ok by reflexivity.
  eexists. split; [reflexivity|]. rewrite Nat2Z.id.
  split; [done|]. split; [done|].
  apply map_eq. intros [i j]. rewrite sparseView_lookup, lookup_empty.
  rewrite decide_False; [done|]. intros [_ Hj]. cbn [m_cols] in Hj.
  rewrite length_replicate in Hj. lia.
Qed.

End ScheduleMore.

(** ** Facts about [Reverse] *)

Section ReverseFacts.
Context `{Countable T}.
Implicit Types (m : gmap EndeffectorID T) (r : gmap T EndeffectorID).

Lemma map_items_elem m ee (v : T) : (ee, v) ∈ map_items m <-> m !! ee = Some v.
Proof.
  unfold map_items. rewrite merge_sort_Permutation. apply elem_of_map_to_list.
Qed.

Lemma key_le_total : Total (@key_le T).
Proof. intros a b. unfold key_le. lia. Qed.

Lemma key_le_trans : Transitive (@key_le T).
Proof. intros a b c. unfold key_le. lia. Qed.

Lemma map_items_sorted m : StronglySorted key_le (map_items m).
Proof.
  apply StronglySorted_merge_sort; [apply key_le_trans | apply key_le_total].
Qed.

(** On entries of the map, [map.at] does not throw: the loop is a fold of
    insertions. *)
Lemma Reverse_loop m (l : list (EndeffectorID * T)) : forall r,
  (forall p, p ∈ l -> m !! p.1 = Some p.2) ->
  for_each_local l
    (fun pair reverse => v ← map_at m pair.1; Ok (<[v := pair.1]> reverse)) r
  = Ok (foldl (fun acc p => <[p.2 := p.1]> acc) r l).
Proof.
  induction l as [|p l IH]; intros r Hl; [done|].
  cbn [for_each_local foldl].
  assert (Hat : map_at m p.1 = Ok p.2).
  { unfold map_at. by rewrite (Hl p) by (apply elem_of_cons; by left). }
  rewrite Hat. cbn [mbind result_bind].
  apply IH. intros q Hq. apply Hl, elem_of_cons. by right.
Qed.

Lemma Reverse_eq m :
  Reverse m = Ok (foldl (fun acc p => <[p.2 := p.1]> acc) ∅ (map_items m)).
Proof.
  unfold Reverse. apply Reverse_loop. intros [ee v]. apply map_items_elem.
Qed.

Lemma fold_insert_from (l : list (EndeffectorID * T)) : forall r (v : T) ee,
  foldl (fun acc p => <[p.2 := p.1]> acc) r l !! v = Some ee ->
  (ee, v) ∈ l \/ r !! v = Some ee.
Proof.
  induction l as [|p l IH]; intros r v ee; cbn [foldl]; [by right|].
  intros Hv. apply IH in Hv as [Hin|Hv].
  - left. apply elem_of_cons. by right.
  - apply lookup_insert_Some in Hv as [[<- <-]|[_ Hv]]; [|by right].
    left. apply elem_of_cons. left. by destruct p.
Qed.

Lemma fold_insert_covers (l : list (EndeffectorID * T)) : forall r (v : T),
  (exists ee, (ee, v) ∈ l) \/ is_Some (r !! v) ->
  is_Some (foldl (fun acc p => <[p.2 := p.1]> acc) r l !! v).
Proof.
  induction l as [|p l IH]; intros r v; cbn [foldl].
  - intros [[ee Hin]|Hr]; [by apply elem_of_nil in Hin|done].
  - intros [[ee Hin]|Hr]; apply IH.
    + apply elem_of_cons in Hin as [<-|Hin]; [|left; by exists ee].
      right. cbn. rewrite lookup_insert_eq. by eexists.
    + right. destruct (decide (p.2 = v)) as [<-|Hne].
      * rewrite lookup_insert_eq. by eexists.
      * by rewrite lookup_insert_ne.
Qed.

(** In a list sorted by key, a later entry replaces an earlier one: what
    is found under a value has the greatest key among the entries with that
    value. *)
Lemma fold_insert_greatest (l : list (EndeffectorID * T)) : forall r,
  StronglySorted key_le l ->
  (forall (v : T) ee p, r !! v = Some ee -> p ∈ l -> ee_index ee <= ee_index p.1) ->
  forall (v : T) ee,
    foldl (fun acc p => <[p.2 := p.1]> acc) r l !! v = Some ee ->
    (forall p, p ∈ l -> p.2 = v -> ee_index p.1 <= ee_index ee)
    /\ (forall ee0, r !! v = Some ee0 -> ee_index ee0 <= ee_index ee).
Proof.
  induction l as [|p l IH]; intros r Hsorted Hbelow v ee; cbn [foldl].
  - intros Hv. split; [by intros p Hp%elem_of_nil|].
    intros ee0 Hee0. rewrite Hv in Hee0. by injection Hee0 as ->.
  - apply StronglySorted_inv in Hsorted as [Hsorted Hhead].
    intros Hv. eapply IH in Hv as [Hl Hr]; [|done|].
    2:{ intros v' ee' q Hins Hq.
        apply lookup_insert_Some in Hins as [[_ <-]|[_ Hins]].
        - rewrite Forall_forall in Hhead. apply (Hhead q Hq).
        - eapply Hbelow; [done|]. apply elem_of_cons. by right. }
    split.
    + intros q Hq Hqv. apply elem_of_cons in Hq as [->|Hq]; [|by apply Hl].
      apply Hr. rewrite <- Hqv. apply lookup_insert_eq.
    + intros ee0 Hee0. destruct (decide (p.2 = v)) as [Hpv|Hne].
      * transitivity (ee_index p.1).
        -- eapply Hbelow; [done|]. apply elem_of_cons. by left.
        -- apply Hr. rewrite <- Hpv. apply lookup_insert_eq.
      * apply Hr. by rewrite lookup_insert_ne.
Qed.

(** X12: [Reverse] returns for every table; an entry of the result is an entry
    of the table turned around, and every value of the table is a key of
    the result. *)
Theorem Reverse_entries m :
  exists r,
    Reverse m = Ok r
    /\ (forall (v : T) ee, r !! v = Some ee -> m !! ee = Some v)
    /\ (forall ee (v : T), m !! ee = Some v -> is_Some (r !! v)).
Proof.
  eexists. split; [apply Reverse_eq|]. split.
  - intros v ee Hv. apply fold_insert_from in Hv as [Hin|Hv].
    + by apply map_items_elem.
    + by rewrite lookup_empty in Hv.
  - intros ee v Hm. apply fold_insert_covers. left. exists ee.
    by apply map_items_elem.
Qed.

(** X13: Where two end-effectors have the same value in the table, the reversed
    table has the one with the greater identifier. *)
Theorem Reverse_greatest_key_wins m :
  exists r,
    Reverse m = Ok r
    /\ forall (v : T) ee ee',
         r !! v = Some ee -> m !! ee' = Some v -> ee_index ee' <= ee_index ee.
Proof.
  eexists. split; [apply Reverse_eq|].
  intros v ee ee' Hv Hm.
  eapply fold_insert_greatest in Hv as [Hl _].
  - apply (Hl (ee', v)); [|done]. by apply map_items_elem.
  - apply map_items_sorted.
  - intros v' ee0 p Hempty. by rewrite lookup_empty in Hempty.
Qed.

(** X14: For a table that gives different end-effectors different values,
    [Reverse] is the inverse table: the value of an end-effector leads back
    to it, and the two tables have the same number of entries. *)
Theorem Reverse_inverts_injective m :
  (forall ee1 ee2 (v : T), m !! ee1 = Some v -> m !! ee2 = Some v -> ee1 = ee2) ->
  exists r,
    Reverse m = Ok r
    /\ (forall ee (v : T), m !! ee = Some v <-> r !! v = Some ee)
    /\ forall ee (v : T), map_at m ee = Ok v -> map_at r v = Ok ee.
Proof.
  intros Hinj.
  assert (Hinv : forall ee (v : T),
             m !! ee = Some v <->
             foldl (fun acc p => <[p.2 := p.1]> acc) (∅ : gmap T EndeffectorID)
                   (map_items m) !! v = Some ee).
  { intros ee v. split.
    - intros Hm.
      destruct (fold_insert_covers (map_items m) (∅ : gmap T EndeffectorID) v)
        as [ee' Hee'].
      { left. exists ee. by apply map_items_elem. }
      pose proof Hee' as Hfrom.
      apply fold_insert_from in Hfrom as [Hin|Hempty].
      + apply map_items_elem in Hin. by rewrite (Hinj ee ee' v).
      + by rewrite lookup_empty in Hempty.
    - intros Hv. apply fold_insert_from in Hv as [Hin|Hempty].
      + by apply map_items_elem.
      + by rewrite lookup_empty in Hempty. }
  eexists. split; [apply Reverse_eq|]. split; [exact Hinv|].
  intros ee v. unfold map_at.
  destruct (m !! ee) as [v'|] eqn:Hm; [|done]. intros [= ->].
  apply Hinv in Hm. by rewrite Hm.
Qed.

End ReverseFacts.

(** ** Further facts about the containers *)

Section EndeffectorsMore.

(** X15: [Invert] flips every flag: under each identifier the copy holds the
    negation of what the container holds, and an identifier outside the
    container is outside the copy. *)
Theorem Invert_flips_each (b : EndeffectorsBool) (ee : EndeffectorID) :
  exists b' : EndeffectorsBool,
    Invert b = Ok b' /\ At b' ee = result_map negb (At b ee).
Proof.
  eexists. split; [apply Invert_eq|].
  unfold At. cbn [ee_]. rewrite list_lookup_fmap.
  by destruct (ee_ b !! ee_index ee).
Qed.

Lemma count_true_bounds (l : list bool) :
  length (filter (fun b => b = true) l) <= length l.
Proof. apply length_filter. Qed.

Lemma count_true_zero (l : list bool) :
  length (filter (fun b => b = true) l) = 0 <-> forall i, l !! i <> Some true.
Proof.
  induction l as [|b l IH].
  - split; [intros _ i; by rewrite lookup_nil|done].
  - rewrite filter_cons. destruct b; case_decide; try done; cbn [length].
    + split; [done|]. intros Hall. by specialize (Hall 0).
    + rewrite IH. split.
      * intros Hall [|i]; [done|]. apply Hall.
      * intros Hall i. apply (Hall (S i)).
Qed.

Lemma count_true_all (l : list bool) :
  length (filter (fun b => b = true) l) = length l <-> forall i, l !! i <> Some false.
Proof.
  induction l as [|b l IH].
  - split; [intros _ i; by rewrite lookup_nil|done].
  - rewrite filter_cons. destruct b; case_decide; try done; cbn [length].
    + rewrite Nat.succ_inj_wd, IH. split.
      * intros Hall [|i]; [done|]. apply Hall.
      * intros Hall i. apply (Hall (S i)).
    + pose proof (count_true_bounds l). split; [lia|].
      intros Hall. by specialize (Hall 0).
Qed.

(** X16: [GetTrueCount] lies between 0 and [GetCount]; it is 0 exactly when no
    flag is set and [GetCount] exactly when none is cleared. *)
Theorem GetTrueCount_range (b : EndeffectorsBool) :
  exists c : Z,
    GetTrueCount b = Ok c
    /\ (0 <= c <= GetCount b)%Z
    /\ (c = 0%Z <-> forall ee, At b ee <> Ok true)
    /\ (c = GetCount b <-> forall ee, At b ee <> Ok false).
Proof.
  eexists. split; [apply GetTrueCount_eq|]. unfold GetCount.
  pose proof (count_true_bounds (ee_ b)) as Hle.
  assert (Hat : forall v, (forall ee, At b ee <> Ok v)
                          <-> forall i, ee_ b !! i <> Some v).
  { intros v. split.
    - intros Hall i Hi. apply (Hall (EE i)). unfold At. cbn. by rewrite Hi.
    - intros Hall [i]. unfold At. cbn. specialize (Hall i).
      destruct (ee_ b !! i); [|done]. congruence. }
  split; [lia|]. split.
  - rewrite Hat, <- count_true_zero. lia.
  - rewrite Hat, <- count_true_all. lia.
Qed.

Lemma stream_out_loop {T} (this : Endeffectors T) k :
  forall i (stream : list (written T)),
    i + k <= length (ee_ this) ->
    for_each_local (EE <$> seq i k)
      (fun ee stream => v ← At this ee; Ok (stream ++ [Value v; Text ", "])) stream
    = Ok (stream ++ (take k (drop i (ee_ this)) ≫= fun v => [Value v; Text ", "])).
Proof.
  induction k as [|k IH]; intros i stream Hik.
  - rewrite take_0. cbn. by rewrite app_nil_r.
  - destruct (lookup_lt_is_Some_2 (ee_ this) i) as [v Hv]; [lia|].
    cbn [seq fmap list_fmap for_each_local].
    rewrite (At_lookup _ _ _ Hv). cbn [mbind result_bind].
    rewrite IH by lia. rewrite (drop_S _ _ _ Hv). cbn [take].
    rewrite bind_cons, <- app_assoc. done.
Qed.

(** X18: Writing a container to a stream does not throw; after what the stream
    held it writes the values in the order of the identifiers, and after
    each of them, the last one too, a comma and a space. *)
Theorem stream_out_spec {T} (stream : list (written T)) (this : Endeffectors T) :
  stream_out stream this
  = Ok (stream ++ (ee_ this ≫= fun v => [Value v; Text ", "])).
Proof.
  unfold stream_out, GetEEsOrdered. rewrite stream_out_loop by lia.
  cbn [drop]. by rewrite firstn_all.
Qed.

(** X17: A container built for [n] end-effectors holds [n] flags, none of them
    set; all [n] are set in its inverse.  A negative count gives no
    container. *)
Theorem EndeffectorsBool_new_all_false (n : Z) :
  (0 <= n)%Z ->
  exists b b' : EndeffectorsBool,
    EndeffectorsBool_new n = Ok b
    /\ GetCount b = n
    /\ GetTrueCount b = Ok 0%Z
    /\ Invert b = Ok b'
    /\ GetTrueCount b' = Ok n.
Proof.
  intros Hn. unfold EndeffectorsBool_new, Endeffectors_new.
  destruct (Z.ltb_spec n 0) as [?|_]; [lia|].
  eexists _, _. split; [reflexivity|].
  split; [unfold GetCount; cbn [ee_]; rewrite length_replicate; lia|].
  split.
  { rewrite GetTrueCount_eq. cbn [ee_]. do 2 f_equal.
    induction (Z.to_nat n) as [|k IH]; [done|]. cbn [replicate].
    rewrite filter_cons. by case_decide. }
  split; [apply Invert_eq|].
  rewrite GetTrueCount_eq. cbn [ee_]. f_equal.
  rewrite fmap_replicate. cbn [negb].
  transitivity (Z.of_nat (Z.to_nat n)); [|lia]. f_equal.
  induction (Z.to_nat n) as [|k IH]; [done|]. cbn [replicate].
  rewrite filter_cons. case_decide; [|done]. cbn [length]. by rewrite IH.
Qed.

End EndeffectorsMore.

(** ** The results at the example schedule *)

Lemma Z_neg_one_mul : neg_one_mul_law Z.
Proof. intros a. cbn. lia. Defined.

Lemma Z_le_not_gt : le_not_gt_law Z.
Proof.
  intros a b Hab. unfold sgtb. cbn in *.
  apply Z.ltb_ge. apply Z.leb_le in Hab. exact Hab.
Defined.

Lemma Z_abs_above_neg_one : abs_above_neg_one_law Z.
Proof. intros v. cbn. apply Z.leb_gt. lia. Defined.

Lemma example_valid : valid_timings [3; 4; 3]%Z.
Proof. split; [discriminate | unfold CInt.INT_MAX; cbn; lia]. Defined.

Lemma example_reachable NDEBUG :
  reachable NDEBUG example_schedule example_schedule_moved.
Proof.
  eapply (reach_SetVariables _ _ example_schedule [2; 5]%Z);
    [apply reach_new | destruct NDEBUG; reflexivity].
Defined.

Lemma GetRows_GetValues_spec_witness :
  valid_timings [3; 4; 3]%Z
  /\ reachable false example_schedule example_schedule_moved
  /\ GetRows example_schedule_moved = Ok (2%Z, example_schedule_moved)
  /\ exists vals : list Z,
       GetValues example_schedule_moved = Ok (vals, example_schedule_moved)
       /\ Z.of_nat (length vals) = 2%Z
       /\ forall i, i < length vals ->
                    vals !! i = durations_ example_schedule_moved !! i.
Proof.
  split; [exact example_valid|]. split; [exact (example_reachable false)|].
  exact (GetRows_GetValues_spec false E0 [3; 4; 3]%Z 1%Z 6%Z example_schedule_moved
           example_valid (example_reachable false)).
Defined.

Lemma rounding_valid : valid_timings [d0_1; d0_3; d0_5].
Proof. split; [discriminate | vm_compute; discriminate]. Defined.

Lemma scenario_double_valid : valid_timings [d0_3; d0_4; d0_3].
Proof. split; [discriminate | vm_compute; discriminate]. Defined.

Lemma SetVariables_stores_x_and_derived_last_witness :
  valid_timings [d0_1; d0_3; d0_5]
  /\ reachable false rounding_schedule rounding_schedule
  /\ Z.of_nat (length [d0_1; d0_1]) = num_rows_ rounding_schedule
  /\ exists (this' : ContactSchedule PrimFloat.float) (last' : PrimFloat.float),
       SetVariables false [d0_1; d0_1] rounding_schedule
         = (if false || sgtb last' (of_Z 0)
            then Ok (observers_ rounding_schedule, this') else Fail AssertionFailed)
       /\ last' = ssub (foldl sadd (of_Z 0) [d0_1; d0_3; d0_5]) (vec_sum [d0_1; d0_1])
       /\ durations_ this' = [d0_1; d0_1] ++ [last']
       /\ t_total_ this' = foldl sadd (of_Z 0) [d0_1; d0_3; d0_5]
       /\ GetValues this' = Ok ([d0_1; d0_1], this').
Proof.
  split; [exact rounding_valid|]. split; [apply reach_new|]. split; [reflexivity|].
  exact (SetVariables_stores_x_and_derived_last false E0 [d0_1; d0_3; d0_5]
           d0_1 d0_6 rounding_schedule [d0_1; d0_1]
           rounding_valid (reach_new _ _) eq_refl).
Defined.

Lemma SetVariables_asserts_last_positive_witness :
  le_not_gt_law Z
  /\ valid_timings [3; 4; 3]%Z
  /\ reachable false example_schedule example_schedule
  /\ (num_rows_ example_schedule <= Z.of_nat (length [5; 5]%Z))%Z
  /\ sleb (ssub (t_total_ example_schedule) (vec_sum [5; 5]%Z)) (of_Z 0) = true
  /\ SetVariables false [5; 5]%Z example_schedule = Fail AssertionFailed.
Proof.
  assert (Hrows : (num_rows_ example_schedule <= Z.of_nat (length [5; 5]%Z))%Z)
    by (vm_compute; discriminate).
  split; [exact Z_le_not_gt|]. split; [exact example_valid|].
  split; [apply reach_new|]. split; [exact Hrows|].
  split; [reflexivity|].
  exact (SetVariables_asserts_last_positive E0 [3; 4; 3]%Z 1%Z 6%Z
           example_schedule [5; 5]%Z Z_le_not_gt example_valid
           (reach_new _ _) Hrows eq_refl).
Defined.

Lemma SetVariables_GetValues_recomputes_last_witness :
  valid_timings [d0_3; d0_4; d0_3]
  /\ reachable false scenario_double scenario_double
  /\ exists (vals : list PrimFloat.float) (l last' : PrimFloat.float)
            (this' : ContactSchedule PrimFloat.float),
       GetValues scenario_double = Ok (vals, scenario_double)
       /\ durations_ scenario_double = vals ++ [l]
       /\ last' = ssub (t_total_ scenario_double) (vec_sum vals)
       /\ SetVariables false vals scenario_double
          = (if false || sgtb last' (of_Z 0)
             then Ok (observers_ scenario_double, this') else Fail AssertionFailed)
       /\ durations_ this' = vals ++ [last']
       /\ (this' = scenario_double <-> last' = l).
Proof.
  split; [exact scenario_double_valid|]. split; [apply reach_new|].
  exact (SetVariables_GetValues_recomputes_last false E0 [d0_3; d0_4; d0_3]
           d0_1 d0_6 scenario_double scenario_double_valid (reach_new _ _)).
Defined.

Lemma total_time_fixed_witness :
  reachable true example_schedule example_schedule_moved
  /\ t_total_ example_schedule = 10%Z
  /\ t_total_ example_schedule_moved = 10%Z
  /\ phase_duration_bounds_ example_schedule_moved = mkBounds 1%Z 6%Z
  /\ name_ example_schedule_moved = EESchedule E0
  /\ forall x called this',
       SetVariables true x example_schedule_moved = Ok (called, this') ->
       t_total_ this' = t_total_ example_schedule_moved
       /\ phase_duration_bounds_ this' = phase_duration_bounds_ example_schedule_moved
       /\ name_ this' = name_ example_schedule_moved.
Proof.
  split; [exact (example_reachable true)|].
  exact (total_time_fixed true E0 [3; 4; 3]%Z 1%Z 6%Z example_schedule_moved
           (example_reachable true)).
Defined.

Lemma GetJacobianOfPos_earlier_columns_witness :
  neg_one_mul_law Z
  /\ abs_above_neg_one_law Z
  /\ valid_timings [3; 4; 3]%Z
  /\ reachable false example_schedule example_schedule_moved
  /\ (0 <= 2 < Z.of_nat (length [3; 4; 3]%Z))%Z
  /\ length [10; 20]%Z = length [7; 9]%Z
  /\ (Z.of_nat (length [7; 9]%Z) <= CInt.INT_MAX)%Z
  /\ (Z.of_nat 0 < 2)%Z
  /\ exists J : SparseMatrix,
       GetJacobianOfPos 2%Z [10; 20]%Z [7; 9]%Z example_schedule_moved
         = Ok (J, example_schedule_moved)
       /\ sp_col J 0
          = Some <$> (if decide (2 = Z.of_nat (length [3; 4; 3]%Z) - 1)%Z
                      then vec_sub (vec_neg [7; 9]%Z) [10; 20]%Z
                      else vec_neg [7; 9]%Z).
Proof.
  assert (H1 : (0 <= 2 < Z.of_nat (length [3; 4; 3]%Z))%Z) by (cbn; lia).
  assert (H2 : (Z.of_nat (length [7; 9]%Z) <= CInt.INT_MAX)%Z)
    by (unfold CInt.INT_MAX; cbn; lia).
  assert (H3 : (Z.of_nat 0 < 2)%Z) by lia.
  split; [exact Z_neg_one_mul|]. split; [exact Z_abs_above_neg_one|].
  split; [exact example_valid|]. split; [exact (example_reachable false)|].
  split; [exact H1|]. split; [reflexivity|]. split; [exact H2|]. split; [exact H3|].
  exact (GetJacobianOfPos_earlier_columns false E0 [3; 4; 3]%Z 1%Z 6%Z
           example_schedule_moved 2%Z [10; 20]%Z [7; 9]%Z 0
           Z_neg_one_mul Z_abs_above_neg_one example_valid
           (example_reachable false) H1 eq_refl H2 H3).
Defined.

Lemma GetJacobianOfPos_current_column_witness :
  abs_above_neg_one_law Z
  /\ valid_timings [3; 4; 3]%Z
  /\ reachable false example_schedule example_schedule_moved
  /\ (0 <= 1 < Z.of_nat (length [3; 4; 3]%Z))%Z
  /\ length [10; 20]%Z = length [7; 9]%Z
  /\ (Z.of_nat (length [7; 9]%Z) <= CInt.INT_MAX)%Z
  /\ exists J : SparseMatrix,
       GetJacobianOfPos 1%Z [10; 20]%Z [7; 9]%Z example_schedule_moved
         = Ok (J, example_schedule_moved)
       /\ GetRows example_schedule_moved = Ok (Z.of_nat (sp_cols J), example_schedule_moved)
       /\ (1%Z <> (Z.of_nat (length [3; 4; 3]%Z) - 1)%Z ->
           sp_col J (Z.to_nat 1) = Some <$> [10; 20]%Z)
       /\ (1%Z = (Z.of_nat (length [3; 4; 3]%Z) - 1)%Z ->
           sp_cols J = Z.to_nat 1
           /\ forall i, sp_coeffs J !! (i, Z.to_nat 1) = None).
Proof.
  assert (H1 : (0 <= 1 < Z.of_nat (length [3; 4; 3]%Z))%Z) by (cbn; lia).
  assert (H2 : (Z.of_nat (length [7; 9]%Z) <= CInt.INT_MAX)%Z)
    by (unfold CInt.INT_MAX; cbn; lia).
  split; [exact Z_abs_above_neg_one|].
  split; [exact example_valid|]. split; [exact (example_reachable false)|].
  split; [exact H1|]. split; [reflexivity|]. split; [exact H2|].
  exact (GetJacobianOfPos_current_column false E0 [3; 4; 3]%Z 1%Z 6%Z
           example_schedule_moved 1%Z [10; 20]%Z [7; 9]%Z
           Z_abs_above_neg_one example_valid (example_reachable false) H1 eq_refl H2).
Defined.

Lemma GetJacobianOfPos_pattern_stable_witness :
  abs_above_neg_one_law Z
  /\ valid_timings [3; 4; 3]%Z
  /\ length [1; 1; 8]%Z = length [3; 4; 3]%Z
  /\ reachable false example_schedule example_schedule_moved
  /\ reachable false other_schedule other_schedule
  /\ (0 <= 1 < Z.of_nat (length [3; 4; 3]%Z))%Z
  /\ length [10; 20]%Z = length [7; 9]%Z
  /\ length [0; 0]%Z = length [10; 20]%Z
  /\ length [0; 0]%Z = length [7; 9]%Z
  /\ (Z.of_nat (length [7; 9]%Z) <= CInt.INT_MAX)%Z
  /\ exists J1 J2 : SparseMatrix,
       GetJacobianOfPos 1%Z [10; 20]%Z [7; 9]%Z example_schedule_moved
         = Ok (J1, example_schedule_moved)
       /\ GetJacobianOfPos 1%Z [0; 0]%Z [0; 0]%Z other_schedule
          = Ok (J2, other_schedule)
       /\ sp_pattern J1 = sp_pattern J2
       /\ sp_pattern J1
          = list_to_set (all_indices (length [7; 9]%Z) (pred (length [3; 4; 3]%Z))).
Proof.
  assert (H1 : (0 <= 1 < Z.of_nat (length [3; 4; 3]%Z))%Z) by (cbn; lia).
  assert (H2 : (Z.of_nat (length [7; 9]%Z) <= CInt.INT_MAX)%Z)
    by (unfold CInt.INT_MAX; cbn; lia).
  split; [exact Z_abs_above_neg_one|]. split; [exact example_valid|].
  split; [reflexivity|]. split; [exact (example_reachable false)|].
  split; [apply reach_new|]. split; [exact H1|].
  split; [reflexivity|]. split; [reflexivity|]. split; [reflexivity|].
  split; [exact H2|].
  exact (GetJacobianOfPos_pattern_stable false E0 E1 [3; 4; 3]%Z [1; 1; 8]%Z
           1%Z 6%Z 1%Z 9%Z example_schedule_moved other_schedule 1%Z
           [10; 20]%Z [7; 9]%Z [0; 0]%Z [0; 0]%Z
           Z_abs_above_neg_one example_valid eq_refl (example_reachable false)
           (reach_new _ _) H1 eq_refl eq_refl eq_refl H2).
Defined.

Lemma GetJacobianOfPos_ignores_durations_witness :
  length [3; 4; 3]%Z = length [1; 1; 8]%Z
  /\ reachable false example_schedule example_schedule_moved
  /\ reachable false other_schedule other_schedule
  /\ result_map fst (GetJacobianOfPos 2%Z [10; 20]%Z [7; 9]%Z example_schedule_moved)
     = result_map fst (GetJacobianOfPos 2%Z [10; 20]%Z [7; 9]%Z other_schedule)
  /\ (valid_timings [3; 4; 3]%Z ->
      (0 <= 2 < Z.of_nat (length [3; 4; 3]%Z))%Z ->
      length [10; 20]%Z = length [7; 9]%Z ->
      (Z.of_nat (length [7; 9]%Z) <= CInt.INT_MAX)%Z ->
      exists J : SparseMatrix,
        GetJacobianOfPos 2%Z [10; 20]%Z [7; 9]%Z example_schedule_moved
          = Ok (J, example_schedule_moved)
        /\ GetJacobianOfPos 2%Z [10; 20]%Z [7; 9]%Z other_schedule
           = Ok (J, other_schedule)).
Proof.
  split; [reflexivity|]. split; [exact (example_reachable false)|].
  split; [apply reach_new|].
  exact (GetJacobianOfPos_ignores_durations false E0 E1 [3; 4; 3]%Z [1; 1; 8]%Z
           1%Z 6%Z 1%Z 9%Z example_schedule_moved other_schedule 2%Z
           [10; 20]%Z [7; 9]%Z eq_refl (example_reachable false) (reach_new _ _)).
Defined.

(** ** Rounding *)

Lemma double_neq (a b : PrimFloat.float) :
  PrimFloat.eqb a b = false -> PrimFloat.eqb b b = true -> a <> b.
Proof. intros Hab Hbb ->. congruence. Qed.

(** In double the sum of the values and the last duration is not always the
    total time: with durations [0.1, 0.3, 0.5] the total time is
    0.90000000000000002; [SetVariables([0.1, 0.1])] returns and leaves
    0.69999999999999996 as the last duration, and 0.1 + 0.1 plus that is
    0.89999999999999991.  (With two coefficients the order in which
    [x.sum()] adds them plays no part.) *)
Lemma SetVariables_sum_not_total_in_double :
  valid_timings [d0_1; d0_3; d0_5]
  /\ Z.of_nat (length [d0_1; d0_1]) = num_rows_ rounding_schedule
  /\ t_total_ rounding_schedule = 0x1.ccccccccccccdp-1%float
  /\ exists (this' : ContactSchedule PrimFloat.float) (vals : list PrimFloat.float)
            (l : PrimFloat.float),
       SetVariables false [d0_1; d0_1] rounding_schedule = Ok ([], this')
       /\ GetValues this' = Ok (vals, this')
       /\ last (durations_ this') = Some l
       /\ t_total_ this' = t_total_ rounding_schedule
       /\ sadd (vec_sum vals) l = 0x1.cccccccccccccp-1%float
       /\ sadd (vec_sum vals) l <> t_total_ rounding_schedule.
Proof.
  split; [exact rounding_valid|]. split; [reflexivity|]. split; [reflexivity|].
  eexists _, _, _. split; [reflexivity|]. split; [reflexivity|].
  split; [reflexivity|]. split; [reflexivity|]. split; [reflexivity|].
  by apply double_neq.
Qed.

(** In double the round trip through [GetValues] moves the last duration:
    the durations [0.3, 0.4, 0.3] of the scenario add up to the total time
    1.0, and [SetVariables(GetValues())] returns with the last duration
    0.30000000000000004 in the place of 0.29999999999999999. *)
Lemma SetVariables_GetValues_moves_last_in_double :
  valid_timings [d0_3; d0_4; d0_3]
  /\ foldl sadd (of_Z 0) (durations_ scenario_double) = t_total_ scenario_double
  /\ exists (vals : list PrimFloat.float) (this' : ContactSchedule PrimFloat.float),
       GetValues scenario_double = Ok (vals, scenario_double)
       /\ SetVariables false vals scenario_double = Ok ([], this')
       /\ durations_ this' = [d0_3; d0_4; 0x1.3333333333334p-2%float]
       /\ durations_ this' <> durations_ scenario_double.
Proof.
  split; [exact scenario_double_valid|]. split; [reflexivity|].
  eexists _, _. split; [reflexivity|]. split; [reflexivity|].
  split; [reflexivity|].
  intros Hsame.
  apply (f_equal (fun ds => match ds !! 2%nat with
                            | Some d => PrimFloat.eqb d d0_3
                            | None => true
                            end)) in Hsame.
  vm_compute in Hsame. discriminate.
Qed.

(** the scenario in double: [SetVariables([0.2, 0.5])] leaves
    0.30000000000000004 as the last duration, and [SetVariables([0.5, 0.5])]
    fails the assertion *)
Example scenario_double_SetVariables :
  result_map (fun p => durations_ p.2)
             (SetVariables false [0x1.999999999999ap-3%float; d0_5] scenario_double)
  = Ok [0x1.999999999999ap-3%float; d0_5; 0x1.3333333333334p-2%float].
Proof. reflexivity. Qed.

Example scenario_double_SetVariables_zero_last :
  SetVariables false [d0_5; d0_5] scenario_double = Fail AssertionFailed.
Proof. reflexivity. Qed.

(** *** In exact rational arithmetic *)

(** With exact rationals for scalars the two equations hold: the values and
    the last duration add up to the total time, and the round trip through
    [GetValues] changes nothing. *)
Lemma exact_SetVariables_keeps_total
      NDEBUG ee (timings : list Qc) lo hi this x calls this' :
  valid_timings timings ->
  reachable NDEBUG (ContactSchedule_new ee timings lo hi) this ->
  Z.of_nat (length x) = num_rows_ this ->
  SetVariables NDEBUG x this = Ok (calls, this') ->
  exists l : Qc,
    durations_ this' = x ++ [l]
    /\ sadd (vec_sum x) l = foldl sadd (of_Z 0) timings.
Proof.
  intros Hv Hreach Hx Hrun.
  pose proof (reachable_rows_match _ _ _ _ _ _ Hv Hreach) as Hrm.
  pose proof (reachable_same_frame _ _ _ Hreach) as (_ & _ & Ht & _ & _).
  cbn [t_total_ ContactSchedule_new] in Ht.
  rewrite (SetVariables_eq NDEBUG x this Hrm) in Hrun by lia.
  destruct (NDEBUG || _); [|done]. injection Hrun as _ <-.
  eexists. cbn [durations_ set_durations].
  rewrite <- Hx, Nat2Z.id, firstn_all. split; [done|].
  rewrite Ht. cbn. ring.
Qed.

Lemma exact_SetVariables_GetValues_roundtrip
      NDEBUG ee (timings : list Qc) lo hi this vals calls this' :
  valid_timings timings ->
  reachable NDEBUG (ContactSchedule_new ee timings lo hi) this ->
  foldl sadd (of_Z 0) (durations_ this) = t_total_ this ->
  GetValues this = Ok (vals, this) ->
  SetVariables NDEBUG vals this = Ok (calls, this') ->
  this' = this.
Proof.
  intros Hv Hreach Hsum Hvals Hrun.
  pose proof (reachable_rows_match _ _ _ _ _ _ Hv Hreach) as Hrm.
  destruct (rows_match_snoc this Hrm) as (l & Hd & _ & Hr).
  rewrite (GetValues_eq this Hrm) in Hvals. injection Hvals as <-.
  assert (Hil : length (independent_durations this) = pred (length (durations_ this))).
  { unfold independent_durations. destruct Hrm as (_ & ? & _).
    rewrite length_take_le; lia. }
  rewrite (SetVariables_eq NDEBUG _ this Hrm) in Hrun by lia.
  destruct (NDEBUG || _); [|done]. injection Hrun as _ <-.
  rewrite Hr, <- Hil, firstn_all.
  assert (Hl : ssub (t_total_ this) (vec_sum (independent_durations this)) = l).
  { rewrite <- Hsum. rewrite Hd at 1. rewrite foldl_app. unfold vec_sum. cbn. ring. }
  replace (t_total_ this - vec_sum (independent_durations this))%Qc with l
    by (symmetry; exact Hl).
  rewrite <- Hd. apply set_durations_same.
Qed.

(** ** The scenario of the specification *)

Example scenario_total_time : this (t_total_ scenario) = 1%Q.
Proof. vm_compute. reflexivity. Qed.

Example scenario_GetRows : GetRows scenario = Ok (2%Z, scenario).
Proof. reflexivity. Qed.

(** [GetValues()] = [0.3, 0.4] *)
Example scenario_GetValues :
  result_map (fun p => this <$> p.1) (GetValues scenario) = Ok [(3 # 10)%Q; (2 # 5)%Q].
Proof. vm_compute. reflexivity. Qed.

(** [SetVariables([0.2, 0.5])] yields durations [0.2, 0.5, 0.3] *)
Example scenario_SetVariables :
  durations_after (SetVariables false [decimal 2 10; decimal 5 10] scenario)
  = Ok [(1 # 5)%Q; (1 # 2)%Q; (3 # 10)%Q].
Proof. vm_compute. reflexivity. Qed.

(** [SetVariables([0.5, 0.5])] makes the last duration 0.0: the assertion
    fails *)
Example scenario_SetVariables_zero_last :
  SetVariables false [decimal 5 10; decimal 5 10] scenario = Fail AssertionFailed.
Proof. vm_compute. reflexivity. Qed.

(** the same call under NDEBUG stores the zero duration *)
Example scenario_SetVariables_zero_last_NDEBUG :
  durations_after (SetVariables true [decimal 5 10; decimal 5 10] scenario)
  = Ok [(1 # 2)%Q; (1 # 2)%Q; 0%Q].
Proof. vm_compute. reflexivity. Qed.

(** The constructor takes an empty timing list as it is: the row count is
    then -1, and neither [GetValues] nor [SetVariables] returns. *)
Example empty_timing_list :
  GetRows (ContactSchedule_new (D:=Z) E0 [] 1%Z 6%Z)
    = Ok ((-1)%Z, ContactSchedule_new E0 [] 1%Z 6%Z)
  /\ GetValues (ContactSchedule_new (D:=Z) E0 [] 1%Z 6%Z) = Fail EigenPrecondition
  /\ SetVariables false [] (ContactSchedule_new (D:=Z) E0 [] 1%Z 6%Z) = Fail Undefined.
Proof. repeat split. Qed.

(** a Jacobian of zeros stores every entry *)
Example zero_entries_are_stored :
  result_map (fun p => (fun ij => sp_coeffs p.1 !! ij) <$> all_indices 2 2)
             (GetJacobianOfPos 0%Z [0; 0]%Z [0; 0]%Z example_schedule)
  = Ok [Some 0%Z; Some 0%Z; Some 0%Z; Some 0%Z].
Proof. vm_compute. reflexivity. Qed.

(** the Jacobian in the last phase and before it *)
Example jacobian_last_phase :
  result_map (fun p => (sp_col p.1 0, sp_col p.1 1))
             (GetJacobianOfPos 2%Z [10; 20]%Z [7; 9]%Z example_schedule)
  = Ok ([Some (-17)%Z; Some (-29)%Z], [Some (-17)%Z; Some (-29)%Z]).
Proof. vm_compute. reflexivity. Qed.

Example jacobian_middle_phase :
  result_map (fun p => (sp_col p.1 0, sp_col p.1 1))
             (GetJacobianOfPos 1%Z [10; 20]%Z [7; 9]%Z example_schedule)
  = Ok ([Some (-7)%Z; Some (-9)%Z], [Some 10%Z; Some 20%Z]).
Proof. vm_compute. reflexivity. Qed.

Example Invert_example :
  Invert (mkEndeffectors [true; false; false; true])
  = Ok (mkEndeffectors [false; true; true; false]).
Proof. reflexivity. Qed.

Example GetTrueCount_example :
  GetTrueCount (mkEndeffectors [true; false; false; true]) = Ok 2%Z.
Proof. reflexivity. Qed.

(** ** The further results at examples *)

Lemma GetBounds_spec_witness :
  valid_timings [3; 4; 3]%Z
  /\ reachable false example_schedule example_schedule_moved
  /\ exists vals : list Z,
       GetValues example_schedule_moved = Ok (vals, example_schedule_moved)
       /\ length vals = pred (length [3; 4; 3]%Z)
       /\ GetBounds example_schedule_moved
          = Ok (replicate (length vals) (mkBounds 1%Z 6%Z), example_schedule_moved).
Proof.
  split; [exact example_valid|]. split; [exact (example_reachable false)|].
  exact (GetBounds_spec false E0 [3; 4; 3]%Z 1%Z 6%Z example_schedule_moved
           example_valid (example_reachable false)).
Defined.

Lemma observers_notified_in_registration_order_witness :
  for_each [7; 9] (fun o _ => AddObserver o) tt example_schedule
    = Ok (tt, set_observers [7; 9] example_schedule)
  /\ SetVariables false [2; 5]%Z (set_observers [7; 9] example_schedule)
     = Ok ([7; 9], set_observers [7; 9] example_schedule_moved)
  /\ [7; 9] = observers_ example_schedule ++ [7; 9]
  /\ observers_ (set_observers [7; 9] example_schedule_moved)
     = observers_ example_schedule ++ [7; 9]
  /\ durations_ (set_observers [7; 9] example_schedule) = durations_ example_schedule.
Proof.
  assert (H1 : for_each [7; 9] (fun o _ => AddObserver o) tt example_schedule
               = Ok (tt, set_observers [7; 9] example_schedule)) by reflexivity.
  assert (H2 : SetVariables false [2; 5]%Z (set_observers [7; 9] example_schedule)
               = Ok ([7; 9], set_observers [7; 9] example_schedule_moved))
    by reflexivity.
  split; [exact H1|]. split; [exact H2|].
  exact (observers_notified_in_registration_order false example_schedule [7; 9]
           [2; 5]%Z _ _ _ H1 H2).
Defined.

Lemma SetVariables_overwrites_witness :
  valid_timings [3; 4; 3]%Z
  /\ reachable false example_schedule example_schedule
  /\ (num_rows_ example_schedule <= Z.of_nat (length [1; 1]%Z))%Z
  /\ SetVariables false [2; 5]%Z example_schedule = Ok ([], example_schedule_moved)
  /\ SetVariables false [1; 1]%Z example_schedule_moved
     = SetVariables false [1; 1]%Z example_schedule.
Proof.
  assert (H1 : (num_rows_ example_schedule <= Z.of_nat (length [1; 1]%Z))%Z)
    by (vm_compute; discriminate).
  assert (H2 : SetVariables false [2; 5]%Z example_schedule
               = Ok ([], example_schedule_moved)) by reflexivity.
  split; [exact example_valid|]. split; [apply reach_new|].
  split; [exact H1|]. split; [exact H2|].
  exact (SetVariables_overwrites false E0 [3; 4; 3]%Z 1%Z 6%Z example_schedule
           [2; 5]%Z [1; 1]%Z [] example_schedule_moved
           example_valid (reach_new _ _) H1 H2).
Defined.

Lemma last_duration_positive_witness :
  reachable false example_schedule example_schedule_moved
  /\ (durations_ example_schedule_moved = [3; 4; 3]%Z
      \/ exists l, last (durations_ example_schedule_moved) = Some l
                   /\ sgtb l (of_Z 0) = true).
Proof.
  split; [exact (example_reachable false)|].
  exact (last_duration_positive E0 [3; 4; 3]%Z 1%Z 6%Z example_schedule_moved
           (example_reachable false)).
Defined.

Lemma SetVariables_short_vector_witness :
  valid_timings [3; 4; 3]%Z
  /\ reachable true example_schedule example_schedule_moved
  /\ (Z.of_nat (length [2]%Z) < num_rows_ example_schedule_moved)%Z
  /\ SetVariables true [2]%Z example_schedule_moved = Fail EigenPrecondition.
Proof.
  assert (H1 : (Z.of_nat (length [2]%Z) < num_rows_ example_schedule_moved)%Z)
    by reflexivity.
  split; [exact example_valid|]. split; [exact (example_reachable true)|].
  split; [exact H1|].
  exact (SetVariables_short_vector true E0 [3; 4; 3]%Z 1%Z 6%Z
           example_schedule_moved [2]%Z example_valid (example_reachable true) H1).
Defined.

Lemma SetVariables_long_vector_witness :
  valid_timings [3; 4; 3]%Z
  /\ reachable false example_schedule example_schedule
  /\ (num_rows_ example_schedule < Z.of_nat (length [2; 5; 1]%Z))%Z
  /\ exists (this' : ContactSchedule Z) (last' : Z),
       SetVariables false [2; 5; 1]%Z example_schedule
         = (if false || sgtb last' (of_Z 0)
            then Ok (observers_ example_schedule, this') else Fail AssertionFailed)
       /\ last' = ssub (t_total_ example_schedule) (vec_sum [2; 5; 1]%Z)
       /\ durations_ this' = take (pred (length [3; 4; 3]%Z)) [2; 5; 1]%Z ++ [last'].
Proof.
  assert (H1 : (num_rows_ example_schedule < Z.of_nat (length [2; 5; 1]%Z))%Z)
    by reflexivity.
  split; [exact example_valid|]. split; [apply reach_new|]. split; [exact H1|].
  exact (SetVariables_long_vector false E0 [3; 4; 3]%Z 1%Z 6%Z example_schedule
           [2; 5; 1]%Z example_valid (reach_new _ _) H1).
Defined.

Lemma GetJacobianOfPos_later_columns_witness :
  abs_above_neg_one_law Z
  /\ valid_timings [3; 4; 3]%Z
  /\ reachable false example_schedule example_schedule_moved
  /\ (0 <= 0)%Z
  /\ length [10; 20]%Z = length [7; 9]%Z
  /\ (Z.of_nat (length [7; 9]%Z) <= CInt.INT_MAX)%Z
  /\ (0 < Z.of_nat 1 < Z.of_nat (length [3; 4; 3]%Z) - 1)%Z
  /\ exists J : SparseMatrix,
       GetJacobianOfPos 0%Z [10; 20]%Z [7; 9]%Z example_schedule_moved
         = Ok (J, example_schedule_moved)
       /\ sp_rows J = length [7; 9]%Z
       /\ sp_col J 1 = Some <$> replicate (length [7; 9]%Z) (of_Z 0).
Proof.
  assert (H0 : (0 <= 0)%Z) by lia.
  assert (H1 : (Z.of_nat (length [7; 9]%Z) <= CInt.INT_MAX)%Z)
    by (vm_compute; discriminate).
  assert (H2 : (0 < Z.of_nat 1 < Z.of_nat (length [3; 4; 3]%Z) - 1)%Z)
    by (cbn; lia).
  split; [exact Z_abs_above_neg_one|]. split; [exact example_valid|].
  split; [exact (example_reachable false)|]. split; [exact H0|].
  split; [reflexivity|]. split; [exact H1|]. split; [exact H2|].
  exact (GetJacobianOfPos_later_columns false E0 [3; 4; 3]%Z 1%Z 6%Z
           example_schedule_moved 0%Z [10; 20]%Z [7; 9]%Z 1
           Z_abs_above_neg_one example_valid (example_reachable false)
           H0 eq_refl H1 H2).
Defined.

Lemma GetJacobianOfPos_phase_out_of_range_witness :
  valid_timings [3; 4; 3]%Z
  /\ reachable false example_schedule example_schedule_moved
  /\ (- 2147483648 <= 3 <= CInt.INT_MAX)%Z
  /\ (3 < 0 \/ Z.of_nat (length [3; 4; 3]%Z) <= 3)%Z
  /\ GetJacobianOfPos 3%Z [10; 20]%Z [7; 9]%Z example_schedule_moved
     = Fail EigenPrecondition.
Proof.
  assert (H1 : (- 2147483648 <= 3 <= CInt.INT_MAX)%Z)
    by (unfold CInt.INT_MAX; lia).
  assert (H2 : (3 < 0 \/ Z.of_nat (length [3; 4; 3]%Z) <= 3)%Z)
    by (right; cbn; lia).
  split; [exact example_valid|]. split; [exact (example_reachable false)|].
  split; [exact H1|]. split; [exact H2|].
  exact (GetJacobianOfPos_phase_out_of_range false E0 [3; 4; 3]%Z 1%Z 6%Z
           example_schedule_moved 3%Z [10; 20]%Z [7; 9]%Z
           example_valid (example_reachable false) H1 H2).
Defined.

Lemma GetJacobianOfPos_size_mismatch_witness :
  valid_timings [3; 4; 3]%Z
  /\ reachable false example_schedule example_schedule_moved
  /\ (0 <= 2 < Z.of_nat (length [3; 4; 3]%Z))%Z
  /\ 1 < length [3; 4; 3]%Z
  /\ (Z.of_nat (length [7; 9]%Z) <= CInt.INT_MAX)%Z
  /\ length [10]%Z <> length [7; 9]%Z
  /\ GetJacobianOfPos 2%Z [10]%Z [7; 9]%Z example_schedule_moved
     = Fail EigenPrecondition.
Proof.
  assert (H1 : (0 <= 2 < Z.of_nat (length [3; 4; 3]%Z))%Z) by (cbn; lia).
  assert (H2 : 1 < length [3; 4; 3]%Z) by (cbn; lia).
  assert (H3 : (Z.of_nat (length [7; 9]%Z) <= CInt.INT_MAX)%Z)
    by (vm_compute; discriminate).
  assert (H4 : length [10]%Z <> length [7; 9]%Z) by discriminate.
  split; [exact example_valid|]. split; [exact (example_reachable false)|].
  split; [exact H1|]. split; [exact H2|]. split; [exact H3|]. split; [exact H4|].
  exact (GetJacobianOfPos_size_mismatch false E0 [3; 4; 3]%Z 1%Z 6%Z
           example_schedule_moved 2%Z [10]%Z [7; 9]%Z
           example_valid (example_reachable false) H1 H2 H3 H4).
Defined.

Lemma single_phase_schedule_witness :
  reachable false (ContactSchedule_new (D:=Z) E2 [5%Z] 1%Z 6%Z)
            (ContactSchedule_new E2 [5%Z] 1%Z 6%Z)
  /\ (Z.of_nat (length [7; 9]%Z) <= CInt.INT_MAX)%Z
  /\ GetRows (ContactSchedule_new (D:=Z) E2 [5%Z] 1%Z 6%Z)
     = Ok (0%Z, ContactSchedule_new E2 [5%Z] 1%Z 6%Z)
  /\ GetValues (ContactSchedule_new (D:=Z) E2 [5%Z] 1%Z 6%Z)
     = Ok ([], ContactSchedule_new E2 [5%Z] 1%Z 6%Z)
  /\ GetBounds (ContactSchedule_new (D:=Z) E2 [5%Z] 1%Z 6%Z)
     = Ok ([], ContactSchedule_new E2 [5%Z] 1%Z 6%Z)
  /\ exists J : SparseMatrix,
       GetJacobianOfPos 0%Z [10]%Z [7; 9]%Z (ContactSchedule_new (D:=Z) E2 [5%Z] 1%Z 6%Z)
         = Ok (J, ContactSchedule_new E2 [5%Z] 1%Z 6%Z)
       /\ sp_rows J = length [7; 9]%Z /\ sp_cols J = 0 /\ sp_coeffs J = ∅.
Proof.
  assert (H1 : (Z.of_nat (length [7; 9]%Z) <= CInt.INT_MAX)%Z)
    by (vm_compute; discriminate).
  split; [apply reach_new|]. split; [exact H1|].
  exact (single_phase_schedule false E2 5%Z 1%Z 6%Z _ [10]%Z [7; 9]%Z
           (reach_new _ _) H1).
Defined.

Lemma EndeffectorsBool_new_all_false_witness :
  (0 <= 4)%Z
  /\ exists b b' : EndeffectorsBool,
       EndeffectorsBool_new 4 = Ok b
       /\ GetCount b = 4%Z
       /\ GetTrueCount b = Ok 0%Z
       /\ Invert b = Ok b'
       /\ GetTrueCount b' = Ok 4%Z.
Proof.
  assert (H1 : (0 <= 4)%Z) by lia.
  split; [exact H1|]. exact (EndeffectorsBool_new_all_false 4 H1).
Defined.

Lemma kMapOptToQuad_injective ee1 ee2 (v : quad.FootID) :
  kMapOptToQuad !! ee1 = Some v -> kMapOptToQuad !! ee2 = Some v -> ee1 = ee2.
Proof.
  unfold kMapOptToQuad. intros H1 H2.
  apply elem_of_list_to_map_2 in H1. apply elem_of_list_to_map_2 in H2.
  repeat (apply elem_of_cons in H1 as [H1|H1]);
    repeat (apply elem_of_cons in H2 as [H2|H2]);
    try (by apply elem_of_nil in H1); try (by apply elem_of_nil in H2);
    congruence.
Defined.

Lemma Reverse_inverts_injective_witness :
  (forall ee1 ee2 (v : quad.FootID),
      kMapOptToQuad !! ee1 = Some v -> kMapOptToQuad !! ee2 = Some v -> ee1 = ee2)
  /\ exists r,
       Reverse kMapOptToQuad = Ok r
       /\ (forall ee (v : quad.FootID), kMapOptToQuad !! ee = Some v <-> r !! v = Some ee)
       /\ forall ee (v : quad.FootID),
            map_at kMapOptToQuad ee = Ok v -> map_at r v = Ok ee.
Proof.
  split; [exact kMapOptToQuad_injective|].
  exact (Reverse_inverts_injective kMapOptToQuad kMapOptToQuad_injective).
Defined.

(** the three tables, reversed *)
Example Reverse_kMapOptToBiped :
  result_map (fun r => (r !! biped.L, r !! biped.R)) (Reverse kMapOptToBiped)
  = Ok (Some E0, Some E1).
Proof. vm_compute. reflexivity. Qed.

Example Reverse_kMapOptToQuad :
  result_map (fun r => (r !! quad.RF, r !! quad.LF, r !! quad.LH, r !! quad.RH))
             (Reverse kMapOptToQuad)
  = Ok (Some E3, Some E1, Some E0, Some E2).
Proof. vm_compute. reflexivity. Qed.

Example Reverse_kMapOptToRotor :
  result_map (fun r => (r !! quad.L, r !! quad.R, r !! quad.F, r !! quad.H))
             (Reverse kMapOptToRotor)
  = Ok (Some E0, Some E2, Some E1, Some E3).
Proof. vm_compute. reflexivity. Qed.

(** two end-effectors with one value: the greater identifier stays *)
Example Reverse_shared_value :
  result_map (fun r => (r !! biped.L, r !! biped.R))
             (Reverse (list_to_map [(E0, biped.L); (E1, biped.L)]))
  = Ok (Some E1, None).
Proof. vm_compute. reflexivity. Qed.

Example stream_out_example :
  stream_out [] (mkEndeffectors [true; false])
  = Ok [Value true; Text ", "; Value false; Text ", "].
Proof. reflexivity. Qed.
